(** * A personal expense ledger (月账单.py): model and verification

    The development embeds the [ExpenseTracker] class of [月账单.py]:
    the keyword categoriser, the one-line entry parser, the ledger with its
    JSON persistence, and the monthly and yearly aggregation.

    Conventions of the embedding.
    - A Python [str] is a [string] holding its UTF-8 bytes.  [py_len] counts
      code points, and the byte-level substring test and pattern matcher agree
      with the code-point-level ones on well-formed UTF-8, because no encoded
      character is a prefix or an infix of another one at a non-boundary.
    - A Python [float] is a binary64 [float]; [/] raises [ZeroDivisionError]
      on a zero divisor and is therefore modelled as a fallible operation.
    - [str.lower] is the Unicode case mapping of the interpreter; it is a
      parameter ([str_lower]) of the sections that use it.
    - [\d], [int], [float] and [strptime] are read on texts whose decimal
      digits and white space are ASCII; the theorems that depend on it say so.
    - What the reports print is returned as data.  Font discovery is
      embedded, and the calls into the drawing libraries are calls on a host
      ([Host]), which either return or raise; logging is left out. *)

From Stdlib Require Import ZArith List Ascii.
From Stdlib Require Import Floats.PrimFloat Floats.SpecFloat Floats.FloatOps.
From Stdlib Require Import Floats.FloatAxioms.
From Stdlib Require Import DecimalString DecimalPos.
From stdpp Require Import base option list strings gmap fin_maps.

Local Open Scope Z_scope.

(** ** Python exceptions and the error monad *)

Inductive py_exn : Type :=
| ZeroDivisionError
| ValueError
| IndexError
| FileNotFoundError
| OtherException.

Inductive result (A : Type) : Type :=
| Ok (a : A)
| Raise (e : py_exn).
Arguments Ok {A} a.
Arguments Raise {A} e.

#[global] Instance result_ret : MRet result := fun A a => Ok a.
#[global] Instance result_bind : MBind result := fun A B k r =>
  match r with
  | Ok a => k a
  | Raise e => Raise e
  end.

(** ** Floats as Python uses them *)

Module PyFloat.

Definition zero : float := 0%float.
Definition hundred : float := 100%float.
Definition twelve : float := 12%float.

(** The literal [0.1]: the binary64 number nearest to one tenth. *)
Definition tenth : float := 0x1.999999999999ap-4%float.

(** [x == 0], [x != 0], [x > y], [x < y] *)
Definition is_zero (x : float) : bool := PrimFloat.eqb x zero.
Definition gt (x y : float) : bool := PrimFloat.ltb y x.
Definition lt (x y : float) : bool := PrimFloat.ltb x y.

(** [x / y] *)
Definition py_div (x y : float) : result float :=
  if is_zero y then Raise ZeroDivisionError else Ok (PrimFloat.div x y).

(** The builtin [sum]: start at 0 and add the items from left to right. *)
Definition py_sum (xs : list float) : float :=
  fold_left PrimFloat.add xs zero.

(** [float(token)] for a token [digits [. digits]]: the binary64 number
    nearest to the decimal, ties to even.  [n] is the integer written by all
    the digits and [k] the number of digits after the point. *)
Definition pow10 (k : nat) : positive := Nat.iter k (Pos.mul 10) 1%positive.

Definition of_decimal (n : N) (k : nat) : float :=
  match n with
  | N0 => zero
  | Npos p =>
      SF2Prim (SFdiv prec emax (S754_finite false p 0)
                 (S754_finite false (pow10 k) 0))
  end.

End PyFloat.
Import PyFloat.

(** ** Strings as Python uses them *)

Module PyStr.

Definition ascii_eqb (a b : ascii) : bool := Ascii.eqb a b.

(** [s.startswith(p)] *)
Fixpoint starts_with (p s : string) : bool :=
  match p, s with
  | EmptyString, _ => true
  | String a p', String b s' => ascii_eqb a b && starts_with p' s'
  | String _ _, EmptyString => false
  end.

(** [needle in hay] *)
Fixpoint contains (needle hay : string) : bool :=
  starts_with needle hay ||
  match hay with
  | EmptyString => false
  | String _ hay' => contains needle hay'
  end.

(** What [contains] decides. *)
Definition substring_of (needle hay : string) : Prop :=
  exists before after, hay = before +:+ needle +:+ after.

(** A byte that continues a UTF-8 encoded character: [10xxxxxx]. *)
Definition is_continuation (c : ascii) : bool :=
  match c with
  | Ascii _ _ _ _ _ _ false true => true
  | _ => false
  end.

(** [len(s)]: the number of code points. *)
Fixpoint py_len (s : string) : nat :=
  match s with
  | EmptyString => 0%nat
  | String c s' => if is_continuation c then py_len s' else S (py_len s')
  end.

(** [s.split(sep)[0]] for a one-character separator. *)
Fixpoint first_field (sep : ascii) (s : string) : string :=
  match s with
  | EmptyString => EmptyString
  | String c s' => if ascii_eqb c sep then EmptyString else String c (first_field sep s')
  end.

(** [s.split(sep)] for a one-character separator. *)
Fixpoint split (sep : ascii) (s : string) : list string :=
  match s with
  | EmptyString => [EmptyString]
  | String c s' =>
      if ascii_eqb c sep then EmptyString :: split sep s'
      else match split sep s' with
           | w :: ws => String c w :: ws
           | [] => [String c EmptyString]
           end
  end.

Definition is_digit (c : ascii) : bool :=
  let n := N_of_ascii c in ((48 <=? n) && (n <=? 57))%N.

Definition digit_value (c : ascii) : N := (N_of_ascii c - 48)%N.

Fixpoint all_digits (s : string) : bool :=
  match s with
  | EmptyString => true
  | String c s' => is_digit c && all_digits s'
  end.

(** The number written by a string of digits, most significant first. *)
Fixpoint digits_value (acc : N) (s : string) : N :=
  match s with
  | EmptyString => acc
  | String c s' => digits_value (10 * acc + digit_value c)%N s'
  end.

(** ASCII white space, which [int] skips at both ends of its text. *)
Definition is_space (c : ascii) : bool :=
  let n := N_of_ascii c in
  (((9 <=? n) && (n <=? 13)) || ((28 <=? n) && (n <=? 32)))%N.

Fixpoint all_spaces (s : string) : bool :=
  match s with
  | EmptyString => true
  | String c s' => is_space c && all_spaces s'
  end.

Fixpoint skip_spaces (s : string) : string :=
  match s with
  | EmptyString => EmptyString
  | String c s' => if is_space c then skip_spaces s' else s
  end.

(** What may follow the first digit of an integer: digits, single
    underscores between digits, and white space up to the end. *)
Fixpoint int_digits (acc : N) (s : string) : option N :=
  match s with
  | EmptyString => Some acc
  | String c s' =>
      if is_digit c then int_digits (10 * acc + digit_value c)%N s'
      else if ascii_eqb c "_" then
        match s' with
        | String d s'' =>
            if is_digit d then int_digits (10 * acc + digit_value d)%N s'' else None
        | EmptyString => None
        end
      else if all_spaces s then Some acc else None
  end.

Definition int_unsigned (s : string) : option N :=
  match s with
  | String c s' => if is_digit c then int_digits (digit_value c) s' else None
  | EmptyString => None
  end.

(** [int(s)], base ten: white space, a sign, digits with single underscores
    between them, white space; anything else is a [ValueError]. *)
Definition py_int (s : string) : result Z :=
  let body := skip_spaces s in
  let signed :=
    match body with
    | String c rest =>
        if ascii_eqb c "-" then option_map (fun n => - Z.of_N n) (int_unsigned rest)
        else if ascii_eqb c "+" then option_map Z.of_N (int_unsigned rest)
        else option_map Z.of_N (int_unsigned body)
    | EmptyString => None
    end in
  match signed with
  | Some z => Ok z
  | None => Raise ValueError
  end.

(** [str(n)] and the format [{n}] of an integer. *)
Definition dec (z : Z) : string :=
  match z with
  | Z0 => "0"
  | Zpos p => NilEmpty.string_of_uint (Pos.to_uint p)
  | Zneg p => "-" +:+ NilEmpty.string_of_uint (Pos.to_uint p)
  end.

(** The format [{n:02d}]. *)
Definition dec02 (z : Z) : string :=
  if (0 <=? z) && (z <? 10) then "0" +:+ dec z else dec z.


End PyStr.
Import PyStr.

(** ** The fragment of [re] that the entry pattern uses

    A pattern is a sequence of literal text, greedy bounded repetitions of a
    character class, and group boundaries.  [run] is [re.match]: anchored at
    the start of the text, not at its end, greedy, and backtracking into the
    repetitions from the right. *)

Module Regex.

Inductive item : Type :=
| Chars (text : string)
| Rep (cls : ascii -> bool) (lo : nat) (hi : option nat)
| Mark.

Definition below (hi : option nat) (n : nat) : bool :=
  match hi with
  | None => true
  | Some h => Nat.ltb n h
  end.

(** Drop a literal prefix, if it is there. *)
Fixpoint eat (text s : string) : option string :=
  match text, s with
  | EmptyString, _ => Some s
  | String a text', String b s' => if ascii_eqb a b then eat text' s' else None
  | String _ _, EmptyString => None
  end.

(** [run p s pos]: match [p] against [s], the part of the input that starts
    at offset [pos]; the result lists the offsets at which the marks of [p]
    were passed. *)
Fixpoint run (p : list item) : string -> nat -> option (list nat) :=
  match p with
  | [] => fun _ _ => Some []
  | Chars text :: p' => fun s pos =>
      match eat text s with
      | Some s' => run p' s' (pos + String.length text)%nat
      | None => None
      end
  | Mark :: p' => fun s pos =>
      match run p' s pos with
      | Some marks => Some (pos :: marks)
      | None => None
      end
  | Rep cls lo hi :: p' =>
      (fix rep (n : nat) (s : string) (pos : nat) {struct s} : option (list nat) :=
         let stop := if Nat.leb lo n then run p' s pos else None in
         match s with
         | String c s' =>
             if cls c && below hi n then
               match rep (S n) s' (S pos) with
               | Some marks => Some marks
               | None => stop
               end
             else stop
         | EmptyString => stop
         end) 0%nat
  end.

Definition re_match (p : list item) (s : string) : option (list nat) :=
  run p s 0%nat.

(** The text between two offsets, as [m.group(i)] returns it. *)
Definition slice (s : string) (from to : nat) : string :=
  String.substring from (to - from) s.

End Regex.

(** ** Configuration: the categories and their keywords, in declaration order *)

Definition category_keywords : list (string * list string) :=
  [ ("吃饭", ["饭"; "餐"; "食"; "面"; "火锅"; "烧烤"; "小吃"; "菜"; "米"; "奶茶";
              "饮料"; "水果"; "早餐"; "午餐"; "晚餐"; "夜宵"; "零食"; "外卖";
              "堂食"; "快餐"; "麦当劳"; "肯德基"]);
    ("娱乐", ["电影"; "游戏"; "ktv"; "唱歌"; "电玩"; "网吧"; "电竞"; "演唱会";
              "音乐会"; "剧场"; "展览"; "博物馆"; "健身"; "运动"; "旅游"; "景点";
              "门票"; "电视会员"; "视频会员"]);
    ("交通", ["地铁"; "公交"; "出租"; "打车"; "单车"; "共享单车"; "加油"; "停车";
              "高铁"; "火车"; "飞机"; "机票"; "车票"]);
    ("购物", ["衣服"; "裤子"; "鞋"; "包"; "化妆品"; "护肤品"; "电子产品"; "手机";
              "电脑"; "数码"; "家具"; "日用品"; "超市"]);
    ("其他", []) ].

(** [self.category_keywords.keys()] *)
Definition categories : list string := map fst category_keywords.

Definition all_keywords : list string := concat (map snd category_keywords).

Definition default_category : string := "其他".

(** ** The entry parser: [parse_input] *)

Definition not_newline (c : ascii) : bool := negb (ascii_eqb c "010").
Definition is_point (c : ascii) : bool := ascii_eqb c ".".

(** The pattern of the source, three groups around
    [\d{2,4}/\d{1,2}/\d{1,2}], [.+] and [\d+\.?\d*], with a full-width comma
    after the first and a hyphen after the second. *)
Definition entry_pattern : list Regex.item :=
  [ Regex.Mark;
    Regex.Rep is_digit 2 (Some 4%nat); Regex.Chars "/";
    Regex.Rep is_digit 1 (Some 2%nat); Regex.Chars "/";
    Regex.Rep is_digit 1 (Some 2%nat);
    Regex.Mark;
    Regex.Chars "，";
    Regex.Mark; Regex.Rep not_newline 1 None; Regex.Mark;
    Regex.Chars "-";
    Regex.Mark;
    Regex.Rep is_digit 1 None; Regex.Rep is_point 0 (Some 1%nat); Regex.Rep is_digit 0 None;
    Regex.Mark ].

(** The digits of a token before and after its first point. *)
Fixpoint before_point (s : string) : string :=
  match s with
  | EmptyString => EmptyString
  | String c s' => if is_point c then EmptyString else String c (before_point s')
  end.

Fixpoint after_point (s : string) : string :=
  match s with
  | EmptyString => EmptyString
  | String c s' => if is_point c then s' else after_point s'
  end.

(** [float(amount)] on the tokens the pattern captures, digits with at most
    one point after the first digit; other text raises [ValueError]. *)
Definition py_float (token : string) : result float :=
  let whole := before_point token in
  let fraction := after_point token in
  match whole with
  | EmptyString => Raise ValueError
  | _ =>
      if all_digits whole && all_digits fraction
      then Ok (of_decimal (digits_value 0%N (whole +:+ fraction)) (String.length fraction))
      else Raise ValueError
  end.

(** [parse_input]: [None] is the rejected line. *)
Definition parse_input (input_str : string)
  : option (string * string * float * option string) :=
  match Regex.re_match entry_pattern input_str with
  | Some [d0; d1; t0; t1; a0; a1] =>
      let date_str := Regex.slice input_str d0 d1 in
      let description := Regex.slice input_str t0 t1 in
      let amount := Regex.slice input_str a0 a1 in
      match py_float amount with
      | Ok amount => Some (date_str, description, amount, None)
      | Raise _ => None
      end
  | _ => None
  end.

(** ** Dates: [datetime.strptime(date_str, '%Y/%m/%d')] *)

Definition digit_in (lo hi : N) (c : ascii) : bool :=
  is_digit c && ((lo <=? digit_value c) && (digit_value c <=? hi))%N.

(** [%Y] is [\d\d\d\d]. *)
Definition take_year (s : string) : option (Z * string) :=
  match s with
  | String a (String b (String c (String d rest))) =>
      if is_digit a && is_digit b && is_digit c && is_digit d
      then Some (Z.of_N (digits_value 0%N (String a (String b (String c (String d EmptyString))))), rest)
      else None
  | _ => None
  end.

(** [%m] is [1[0-2]|0[1-9]|[1-9]], the alternatives tried in this order. *)
Definition take_month (s : string) : option (Z * string) :=
  match s with
  | String a rest =>
      match rest with
      | String b rest' =>
          if ascii_eqb a "1" && digit_in 0 2 b then Some (10 + Z.of_N (digit_value b), rest')
          else if ascii_eqb a "0" && digit_in 1 9 b then Some (Z.of_N (digit_value b), rest')
          else if digit_in 1 9 a then Some (Z.of_N (digit_value a), rest)
          else None
      | EmptyString =>
          if digit_in 1 9 a then Some (Z.of_N (digit_value a), rest) else None
      end
  | EmptyString => None
  end.

(** [%d] is [3[01]|[12]\d|0[1-9]|[1-9]| [1-9]], the alternatives tried in this order. *)
Definition take_day (s : string) : option (Z * string) :=
  match s with
  | String a rest =>
      match rest with
      | String b rest' =>
          if ascii_eqb a "3" && digit_in 0 1 b then Some (30 + Z.of_N (digit_value b), rest')
          else if digit_in 1 2 a && is_digit b
               then Some (10 * Z.of_N (digit_value a) + Z.of_N (digit_value b), rest')
          else if ascii_eqb a "0" && digit_in 1 9 b then Some (Z.of_N (digit_value b), rest')
          else if digit_in 1 9 a then Some (Z.of_N (digit_value a), rest)
          else if ascii_eqb a " " && digit_in 1 9 b then Some (Z.of_N (digit_value b), rest')
          else None
      | EmptyString =>
          if digit_in 1 9 a then Some (Z.of_N (digit_value a), rest) else None
      end
  | EmptyString => None
  end.

Definition is_leap (year : Z) : bool :=
  (year mod 4 =? 0) && (negb (year mod 100 =? 0) || (year mod 400 =? 0)).

Definition days_in_month (year month : Z) : Z :=
  if month =? 2 then (if is_leap year then 29 else 28)
  else if (month =? 4) || (month =? 6) || (month =? 9) || (month =? 11) then 30
  else 31.

(** The whole text must be consumed, and the fields must name a day of the
    calendar (years run from 1); everything else is a [ValueError]. *)
Definition strptime (date_str : string) : result (Z * Z * Z) :=
  match take_year date_str with
  | Some (year, String slash1 s1) =>
      if ascii_eqb slash1 "/" then
        match take_month s1 with
        | Some (month, String slash2 s2) =>
            if ascii_eqb slash2 "/" then
              match take_day s2 with
              | Some (day, EmptyString) =>
                  if (1 <=? year) && (day <=? days_in_month year month)
                  then Ok (year, month, day)
                  else Raise ValueError
              | _ => Raise ValueError
              end
            else Raise ValueError
        | _ => Raise ValueError
        end
      else Raise ValueError
  | _ => Raise ValueError
  end.

(** The period key [f"{date.year}-{date.month:02d}"]. *)
Definition month_key_of (year month : Z) : string :=
  dec year +:+ "-" +:+ dec02 month.

(** ** The ledger store *)

(** The record that [add_expense] builds. *)
Record expense : Type := Expense {
  date : string;
  description : string;
  amount : float;
  category : string
}.

(** [self.expenses]: period key, then category, then the records in entry
    order.  A key that was never written is absent. *)
Abbreviation ledger := (gmap string (gmap string (list expense))).

(** [self.expenses.get(month_key, {})] and [monthly_data.get(category, [])] *)
Definition month_data (L : ledger) (month_key : string) : gmap string (list expense) :=
  default ∅ (L !! month_key).

Definition records (L : ledger) (month_key cat : string) : list expense :=
  default [] (month_data L month_key !! cat).

(** [self.expenses[month_key][category].extend(more)]; both keys spring into
    existence when they are absent.  [append(e)] is [extend([e])]. *)
Definition ledger_extend (L : ledger) (month_key cat : string) (more : list expense) : ledger :=
  <[month_key := <[cat := records L month_key cat ++ more]> (month_data L month_key)]> L.

Definition ledger_append (L : ledger) (month_key cat : string) (e : expense) : ledger :=
  ledger_extend L month_key cat [e].

(** The JSON document of the durable file: the members of the top-level
    object, each with the members of its category object, in the order of
    the file.  [json.dump] and [json.load] are taken by their contract:
    [dump] writes the members of every [dict] in its order, and [load] reads
    back the strings and numbers that [dump] wrote. *)
Abbreviation document := (list (string * list (string * list expense))).

(** The durable file: missing, unreadable (not the JSON the tracker writes),
    or holding a document. *)
Inductive durable_file : Type :=
| NoFile
| Unreadable
| Saved (doc : document).

(** [save_data]: the whole ledger is rewritten, each period with its
    categories as a plain object. *)
Definition save_data (L : ledger) : durable_file :=
  Saved (map (fun '(month, cats) => (month, map_to_list cats)) (map_to_list L)).

(** [json.load] builds every object of the text as a [dict], member by
    member: a key that comes again keeps its place and takes the later
    value. *)
Fixpoint dict_set {A : Type} (d : list (string * A)) (k : string) (v : A)
  : list (string * A) :=
  match d with
  | [] => [(k, v)]
  | (k', v') :: rest =>
      if String.eqb k' k then (k', v) :: rest else (k', v') :: dict_set rest k v
  end.

Definition dict_of_members {A : Type} (members : list (string * A)) : list (string * A) :=
  fold_left (fun d '(k, v) => dict_set d k v) members [].

Definition json_load (doc : document) : document :=
  dict_of_members (map (fun '(month, cats) => (month, dict_of_members cats)) doc).

(** [load_data]: merge the loaded document into the ledger, period by
    period and category by category; an unreadable file resets the ledger. *)
Definition load_categories (month : string) (cats : list (string * list expense))
    (L : ledger) : ledger :=
  fold_left (fun L '(cat, expense_list) => ledger_extend L month cat expense_list) cats L.

Definition load_document (doc : document) (L : ledger) : ledger :=
  fold_left (fun L '(month, cats) => load_categories month cats L) doc L.

Definition load_data (f : durable_file) (L : ledger) : ledger :=
  match f with
  | NoFile => L
  | Unreadable => ∅
  | Saved doc => load_document (json_load doc) L
  end.

(** ** The aggregator *)

(** [category_totals.get(category, 0)] on the totals in insertion order. *)
Fixpoint totals_get (totals : list (string * float)) (cat : string) : float :=
  match totals with
  | [] => zero
  | (c, x) :: rest => if String.eqb c cat then x else totals_get rest cat
  end.

(** [get_monthly_summary]: one pass over the declared categories that fills
    [category_totals] and accumulates [total]. *)
Definition summary_step (monthly_data : gmap string (list expense))
    (acc : list (string * float) * float) (cat : string) : list (string * float) * float :=
  let '(category_totals, total) := acc in
  let category_total := py_sum (map amount (default [] (monthly_data !! cat))) in
  (category_totals ++ [(cat, category_total)], PrimFloat.add total category_total).

Definition get_monthly_summary (L : ledger) (month_key : string)
  : list (string * float) * float :=
  let monthly_data := month_data L month_key in
  fold_left (summary_step monthly_data) categories ([], zero).

(** *** The monthly report *)

(** What is printed after a category: the sentinel, or a percentage. *)
Inductive change : Type :=
| NoPriorData
| Percent (x : float).

(** [n / d] rounded to the nearest integer, ties to even, for [0 <= n] and
    [0 < d]. *)
Definition round_half_even (n d : Z) : Z :=
  let q := n / d in
  let r := n mod d in
  if 2 * r <? d then q
  else if d <? 2 * r then q + 1
  else if Z.even q then q else q + 1.

(** The format [{x:.1f}]: the exact value of the float, rounded to one
    decimal. *)
Definition format_1f (x : float) : string :=
  match Prim2SF x with
  | S754_nan => "nan"
  | S754_infinity s => if s then "-inf" else "inf"
  | S754_zero s => if s then "-0.0" else "0.0"
  | S754_finite s m e =>
      let tenths :=
        if 0 <=? e then 10 * Zpos m * 2 ^ e
        else round_half_even (10 * Zpos m) (2 ^ (- e)) in
      (if s then "-" else "") +:+ dec (tenths / 10) +:+ "." +:+ dec (tenths mod 10)
  end.

(** The text of a change: ["无上月数据"] or [f"{x:.1f}%"]. *)
Definition change_text (chg : change) : string :=
  match chg with
  | NoPriorData => "无上月数据"
  | Percent x => format_1f x +:+ "%"
  end.

(** The line [f"{category}: {change}"]. *)
Definition printed_line (line : string * change) : string :=
  fst line +:+ ": " +:+ change_text (snd line).

(** [prev_month] of the report: the key is split at the hyphen and both
    parts are read as integers. *)
Definition prev_month (month_key : string) : result string :=
  match split "-" month_key with
  | [y; m] =>
      year ← py_int y;
      month ← py_int m;
      Ok (if 1 <? month then dec year +:+ "-" +:+ dec02 (month - 1)
          else dec (year - 1) +:+ "-12")
  | _ => Raise ValueError
  end.

Definition change_of (current previous : float) : result change :=
  if is_zero previous then Ok NoPriorData
  else
    ratio ← py_div (PrimFloat.sub current previous) previous;
    Ok (Percent (PrimFloat.mul ratio hundred)).

(** The loop over the categories: the lines it prints, in order. *)
Fixpoint comparison (category_totals prev_totals : list (string * float))
    (cats : list string) : result (list (string * change)) :=
  match cats with
  | [] => Ok []
  | cat :: rest =>
      let current := totals_get category_totals cat in
      let previous := totals_get prev_totals cat in
      chg ← change_of current previous;
      lines ← comparison category_totals prev_totals rest;
      Ok (if gt current zero || gt previous zero then (cat, chg) :: lines else lines)
  end.

(** What [generate_monthly_report] prints: the message that the month has
    no records, the message of a failure, or the total followed by the
    lines of the comparison (with the data of the pie chart).  The function
    below is the method from [get_monthly_summary] on, as it runs once the
    font lookup and the pie chart have gone through; the whole method, with
    these two, is [Host.generate_monthly_report]. *)
Inductive monthly_outcome : Type :=
| MonthWithoutRecords
| MonthlyFailed (e : py_exn)
| MonthlyReport (total : float) (pie : list (string * float))
    (changes : list (string * change)).

Definition generate_monthly_report (L : ledger) (month_key : string) : monthly_outcome :=
  let '(category_totals, total) := get_monthly_summary L month_key in
  if is_zero total then MonthWithoutRecords
  else
    let pie := List.filter (fun p => gt (snd p) zero) category_totals in
    let printed :=
      prev ← prev_month month_key;
      let '(prev_totals, _) := get_monthly_summary L prev in
      comparison category_totals prev_totals categories in
    match printed with
    | Ok lines => MonthlyReport total pie lines
    | Raise e => MonthlyFailed e
    end.

(** *** The yearly report *)

Inductive trend_label : Type :=
| Rising
| Falling
| Stable.

(** [range(1, 13)] *)
Definition month_numbers : list Z := [1; 2; 3; 4; 5; 6; 7; 8; 9; 10; 11; 12].

(** [monthly_totals], one total per month of the year. *)
Definition yearly_totals (L : ledger) (year : string) : list float :=
  map (fun month => snd (get_monthly_summary L (year +:+ "-" +:+ dec02 month)))
    month_numbers.

(** [yearly_data[category]], the category's total in each month. *)
Definition yearly_data (L : ledger) (year cat : string) : list float :=
  map (fun month =>
         totals_get (fst (get_monthly_summary L (year +:+ "-" +:+ dec02 month))) cat)
    month_numbers.

(** [xs[i]], negative indices counting from the end. *)
Definition py_item (xs : list float) (i : Z) : result float :=
  let n := Z.of_nat (length xs) in
  let j := if i <? 0 then i + n else i in
  if (0 <=? j) && (j <? n) then
    match xs !! Z.to_nat j with
    | Some x => Ok x
    | None => Raise IndexError
    end
  else Raise IndexError.

(** [max(items, key=lambda x: x[1])]: the first item whose key no later
    item exceeds. *)
Fixpoint max_from (best : string * float) (rest : list (string * float)) : string * float :=
  match rest with
  | [] => best
  | x :: rest' => max_from (if gt (snd x) (snd best) then x else best) rest'
  end.

Definition py_max (items : list (string * float)) : result (string * float) :=
  match items with
  | [] => Raise ValueError
  | x :: rest => Ok (max_from x rest)
  end.

(** The ratio [trend] of the report: December against January, or 0 when
    January is 0. *)
Definition trend_of (monthly_totals : list float) : result float :=
  first ← py_item monthly_totals 0;
  if negb (is_zero first) then
    last ← py_item monthly_totals (-1);
    py_div (PrimFloat.sub last first) first
  else Ok zero.

(** The three branches that print the trend line. *)
Definition trend_label_of (trend : float) : trend_label :=
  if gt trend tenth then Rising
  else if lt trend (PrimFloat.opp tenth) then Falling
  else Stable.

Record yearly_report : Type := YearlyData {
  total_year : float;
  max_category : string;
  max_share : float;
  monthly_avg : float;
  high_months : list Z;
  trend : trend_label
}.

Inductive yearly_outcome : Type :=
| YearWithoutRecords
| YearlyFailed (e : py_exn)
| YearlyReport (r : yearly_report).

(** The analysis printed once the year is known to have records.
    [generate_yearly_report] below is the method as it runs once the font
    lookup and the trend chart have gone through; the whole method, with
    these two, is [Host.generate_yearly_report]. *)
Definition yearly_analysis (L : ledger) (year : string) (monthly_totals : list float)
  : result yearly_report :=
  let total_year := py_sum monthly_totals in
  let category_year_totals :=
    map (fun cat => (cat, py_sum (yearly_data L year cat))) categories in
  best ← py_max category_year_totals;
  part ← py_div (snd best) total_year;
  monthly_avg ← py_div total_year twelve;
  let high_months :=
    List.filter (fun m => match py_item monthly_totals (m - 1) with
                          | Ok x => gt x monthly_avg
                          | Raise _ => false
                          end) month_numbers in
  ratio ← trend_of monthly_totals;
  Ok {| total_year := total_year;
        max_category := fst best;
        max_share := PrimFloat.mul part hundred;
        monthly_avg := monthly_avg;
        high_months := high_months;
        trend := trend_label_of ratio |}.

Definition generate_yearly_report (L : ledger) (year : string) : yearly_outcome :=
  let monthly_totals := yearly_totals L year in
  if is_zero (py_sum monthly_totals) then YearWithoutRecords
  else
    match yearly_analysis L year monthly_totals with
    | Ok r => YearlyReport r
    | Raise e => YearlyFailed e
    end.

(** ** The reports on a host

    [generate_monthly_report] and [generate_yearly_report] above are what the
    two methods print.  Before they print, the methods look up a font and
    draw a chart, inside the same [try]: a failure there ends the report with
    a message.  The host is what these steps depend on: the platform, the
    file system, and the drawing libraries, each call of which either
    returns or raises.  [generate_word_cloud] catches what it raises and so
    never ends the monthly report. *)

Module Host.

Record host : Type := MkHost {
  (** [platform.system()] *)
  system : string;
  (** [os.path.exists] *)
  path_exists : string -> bool;
  (** [fm.FontProperties(fname=font_path)] *)
  font_properties : string -> result unit;
  (** [plt.figure], [plt.pie], [plt.title] and [plt.show] of the monthly
      report, on the font, the month key and the labelled amounts *)
  pie_chart : string -> string -> list (string * float) -> result unit;
  (** [plt.figure], [plt.plot] per category, the title, the axis labels, the
      legend, the grid and [plt.show] of the yearly report, on the font, the
      year and the plotted categories with their twelve values *)
  trend_chart : string -> string -> list (string * list float) -> result unit
}.

Definition possible_paths : list string :=
  [ "/usr/share/fonts/truetype/droid/DroidSansFallbackFull.ttf";
    "/usr/share/fonts/truetype/wqy/wqy-microhei.ttc" ].

(** [get_font_path]: a fixed path on Windows and macOS, elsewhere the first
    of the possible paths that exists. *)
Definition get_font_path (h : host) : result string :=
  if String.eqb (system h) "Windows" then Ok "C:\Windows\Fonts\simhei.ttf"
  else if String.eqb (system h) "Darwin" then Ok "/System/Library/Fonts/PingFang.ttc"
  else
    match List.find (path_exists h) possible_paths with
    | Some path => Ok path
    | None => Raise FileNotFoundError
    end.

(** The categories of the pie chart, and the lines of the trend chart. *)
Definition pie_of (L : ledger) (month_key : string) : list (string * float) :=
  List.filter (fun p => gt (snd p) zero) (fst (get_monthly_summary L month_key)).

Definition plotted (L : ledger) (year : string) : list (string * list float) :=
  List.filter (fun line => gt (py_sum (snd line)) zero)
    (map (fun cat => (cat, yearly_data L year cat)) categories).

(** [generate_monthly_report], from the top of its [try] to the message of
    the handler that catches what was raised. *)
Definition generate_monthly_report (h : host) (L : ledger) (month_key : string)
  : monthly_outcome :=
  let attempt :=
    font_path ← get_font_path h;
    _ ← font_properties h font_path;
    let '(category_totals, total) := get_monthly_summary L month_key in
    if is_zero total then Ok MonthWithoutRecords
    else
      let pie := List.filter (fun p => gt (snd p) zero) category_totals in
      _ ← pie_chart h font_path month_key pie;
      prev ← prev_month month_key;
      let '(prev_totals, _) := get_monthly_summary L prev in
      lines ← comparison category_totals prev_totals categories;
      Ok (MonthlyReport total pie lines) in
  match attempt with
  | Ok outcome => outcome
  | Raise e => MonthlyFailed e
  end.

(** [generate_yearly_report], likewise. *)
Definition generate_yearly_report (h : host) (L : ledger) (year : string)
  : yearly_outcome :=
  let attempt :=
    font_path ← get_font_path h;
    _ ← font_properties h font_path;
    let monthly_totals := yearly_totals L year in
    if is_zero (py_sum monthly_totals) then Ok YearWithoutRecords
    else
      _ ← trend_chart h font_path year (plotted L year);
      r ← yearly_analysis L year monthly_totals;
      Ok (YearlyReport r) in
  match attempt with
  | Ok outcome => outcome
  | Raise e => YearlyFailed e
  end.

(** The font is found and loaded. *)
Definition font_found (h : host) (font_path : string) : Prop :=
  get_font_path h = Ok font_path /\ font_properties h font_path = Ok tt.

(** A host on which every step goes through: a Linux system with the second
    font installed, and libraries that draw what they are given. *)
Definition linux_host : host :=
  {| system := "Linux";
     path_exists := String.eqb "/usr/share/fonts/truetype/wqy/wqy-microhei.ttc";
     font_properties := fun _ => Ok tt;
     pie_chart := fun _ _ _ => Ok tt;
     trend_chart := fun _ _ _ => Ok tt |}.

(** A Linux system without either font. *)
Definition bare_host : host :=
  {| system := "Linux";
     path_exists := fun _ => false;
     font_properties := fun _ => Ok tt;
     pie_chart := fun _ _ _ => Ok tt;
     trend_chart := fun _ _ _ => Ok tt |}.

End Host.

(** ** The tracker: categoriser, [add_expense], and the states it reaches *)

(** A tracker is its in-memory ledger together with its durable file. *)
Record tracker : Type := Tracker {
  expenses : ledger;
  file : durable_file
}.

(** [ExpenseTracker(data_file)]: an empty ledger, then [load_data]. *)
Definition start (f : durable_file) : tracker :=
  {| expenses := load_data f ∅; file := f |}.

(** The normalisation at the head of [add_expense]: a first field of two
    characters gets the century in front. *)
Definition normalize_date (date_str : string) : string :=
  if Nat.eqb (py_len (first_field "/" date_str)) 2 then "20" +:+ date_str else date_str.

Section Tracker.

(** [str.lower] *)
Variable str_lower : string -> string.

(** The inner loop of [categorize_description] over the keywords of one
    category, and the outer loop over the categories; [Some] is the
    [return] from inside the loops. *)
Fixpoint scan_keywords (cat : string) (keywords : list string) (text : string)
  : option string :=
  match keywords with
  | [] => None
  | keyword :: rest =>
      if contains (str_lower keyword) text then Some cat
      else scan_keywords cat rest text
  end.

Fixpoint scan_categories (table : list (string * list string)) (text : string)
  : option string :=
  match table with
  | [] => None
  | (cat, keywords) :: rest =>
      match scan_keywords cat keywords text with
      | Some found => Some found
      | None => scan_categories rest text
      end
  end.

Definition categorize_description (description : string) : string :=
  let description := str_lower description in
  match scan_categories category_keywords description with
  | Some found => found
  | None => "其他"
  end.

(** [add_expense]: the new state and the returned flag.  A date that
    [strptime] rejects leaves the tracker as it was. *)
Definition add_expense (st : tracker) (date_str description : string)
    (amount : float) (category : option string) : tracker * bool :=
  let date_str := normalize_date date_str in
  match strptime date_str with
  | Raise _ => (st, false)
  | Ok (year, month, _) =>
      let month_key := month_key_of year month in
      let category :=
        match category with
        | None => categorize_description description
        | Some given => given
        end in
      let expense :=
        {| date := date_str; description := description;
           amount := amount; category := category |} in
      let expenses' := ledger_append (expenses st) month_key category expense in
      ({| expenses := expenses'; file := save_data expenses' |}, true)
  end.

(** Choice 1 of the menu: the typed line is parsed and, when it is
    accepted, added. *)
Definition enter (st : tracker) (line : string) : tracker :=
  match parse_input line with
  | Some (date_str, description, amount, category) =>
      fst (add_expense st date_str description amount category)
  | None => st
  end.

(** One action on a tracker: a call of [add_expense], or the end of the
    session followed by a new tracker on the same file. *)
Inductive step : tracker -> tracker -> Prop :=
| step_add st date_str description amount category :
    step st (fst (add_expense st date_str description amount category))
| step_restart st :
    step st (start (file st)).

(** The states of a tracker whose file is written by the tracker alone,
    from the first session, which finds no file. *)
Inductive reachable : tracker -> Prop :=
| reachable_start : reachable (start NoFile)
| reachable_step st st' : reachable st -> step st st' -> reachable st'.

End Tracker.

(** [str.lower] on texts whose cased letters are all ASCII. *)
Definition ascii_lower_char (c : ascii) : ascii :=
  let n := N_of_ascii c in
  if ((65 <=? n) && (n <=? 90))%N then ascii_of_N (n + 32) else c.

Fixpoint ascii_lower (s : string) : string :=
  match s with
  | EmptyString => EmptyString
  | String c s' => String (ascii_lower_char c) (ascii_lower s')
  end.

(** * Specification vocabulary

    The notions in which the properties below are stated, and the ledgers
    used as examples. *)

(** ** The yearly trend *)

(** The totals of January and December of a year, the first and the last
    entry of [monthly_totals]. *)
Definition january_total (L : ledger) (year : string) : float :=
  snd (get_monthly_summary L (year +:+ "-01")).

Definition december_total (L : ledger) (year : string) : float :=
  snd (get_monthly_summary L (year +:+ "-12")).

(** The ratio of the specification: December against January, 0 when
    January is 0. *)
Definition trend_ratio (jan dec : float) : float :=
  if is_zero jan then zero else PrimFloat.div (PrimFloat.sub dec jan) jan.

(** The trend line of a report, stated on the totals of January and
    December: what claim C2 says of every year that has a report. *)
Definition trend_classified (L : ledger) (year : string) : Prop :=
  let jan := january_total L year in
  let dec := december_total L year in
  let ratio := PrimFloat.div (PrimFloat.sub dec jan) jan in
  exists r, generate_yearly_report L year = YearlyReport r /\
    trend r = trend_label_of (trend_ratio jan dec) /\
    (is_zero jan = true -> trend_ratio jan dec = zero /\ trend r = Stable) /\
    (is_zero jan = false ->
       (trend r = Rising <-> gt ratio tenth = true) /\
       (trend r = Falling <-> lt ratio (PrimFloat.opp tenth) = true) /\
       (trend r = Stable <->
          gt ratio tenth = false /\ lt ratio (PrimFloat.opp tenth) = false)).

(** A ledger with a single entry of 100 in January 2024, and one with 130
    more in December 2024. *)
Definition january_only : ledger :=
  {[ "2024-01" := {[ "吃饭" := [Expense "2024/01/05" "午餐" 100 "吃饭"] ]} ]}.

Definition january_and_december : ledger :=
  <[ "2024-12" := {[ "吃饭" := [Expense "2024/12/24" "晚餐" 130 "吃饭"] ]} ]> january_only.

(** ** The categoriser *)

(** A category mentions a text when one of its keywords occurs in it. *)
Definition mentions (keywords : list string) (text : string) : Prop :=
  exists keyword, keyword ∈ keywords /\ substring_of keyword text.

(** The ordered first-match policy, for a result [found] on a lower-cased
    [text], over a table of categories: the first category that mentions the
    text wins, of two mentioning categories the earlier one wins, and the
    default is the result when none does. *)
Definition first_match (table : list (string * list string)) (text found : string) : Prop :=
  (forall i cat keywords,
     table !! i = Some (cat, keywords) ->
     mentions keywords text ->
     (forall j cat' keywords',
        (j < i)%nat -> table !! j = Some (cat', keywords') -> ~ mentions keywords' text) ->
     found = cat) /\
  (forall i j cat keywords cat' keywords',
     (i < j)%nat ->
     table !! i = Some (cat, keywords) -> table !! j = Some (cat', keywords') ->
     mentions keywords text -> mentions keywords' text ->
     (forall k cat'' keywords'',
        k <> i -> k <> j -> table !! k = Some (cat'', keywords'') ->
        ~ mentions keywords'' text) ->
     found = cat) /\
  ((forall cat keywords, (cat, keywords) ∈ table -> ~ mentions keywords text) ->
   found = default_category).

(** The keywords of a table are in lower case already. *)
Definition keywords_fixed (str_lower : string -> string)
    (table : list (string * list string)) : Prop :=
  forall cat keywords keyword,
    (cat, keywords) ∈ table -> keyword ∈ keywords -> str_lower keyword = keyword.

(** The declared keywords are written in lower case: [keyword.lower()] is the
    keyword itself.  This is what the case mapping has to satisfy. *)
Definition lowers_keywords (str_lower : string -> string) : Prop :=
  Forall (fun keyword => str_lower keyword = keyword) all_keywords.

(** What claim C3 says of [classify] on one description. *)
Definition classified (str_lower : string -> string) (description : string) : Prop :=
  categorize_description str_lower description ∈ categories /\
  first_match category_keywords (str_lower description)
    (categorize_description str_lower description).

(** ** The monthly summary *)

(** The total of one category among the records of a month. *)
Definition category_sum (monthly_data : gmap string (list expense)) (cat : string) : float :=
  py_sum (map amount (default [] (monthly_data !! cat))).

(** What claim C5 says of one summary. *)
Definition conserved (L : ledger) (month_key : string) : Prop :=
  let '(category_totals, total) := get_monthly_summary L month_key in
  map fst category_totals = categories /\
  total = py_sum (map snd category_totals).

Definition no_records (L : ledger) (month_key : string) : Prop :=
  forall cat, records L month_key cat = [].

(** ** Categories outside the declared set *)

(** Two ledgers with the same records under every declared category. *)
Definition agree_on_declared (L L' : ledger) : Prop :=
  forall month_key cat, cat ∈ categories ->
    records L month_key cat = records L' month_key cat.

(** The same summaries and the same reports from two ledgers. *)
Definition same_reports (L L' : ledger) : Prop :=
  (forall month_key, get_monthly_summary L month_key = get_monthly_summary L' month_key) /\
  (forall month_key,
     generate_monthly_report L month_key = generate_monthly_report L' month_key) /\
  (forall year, generate_yearly_report L year = generate_yearly_report L' year).

(** ** The month-over-month comparison *)

(** The percentage of the specification, [(current - previous) / previous * 100]. *)
Definition delta_percent (current previous : float) : float :=
  PrimFloat.mul (PrimFloat.div (PrimFloat.sub current previous) previous) hundred.

(** What is printed for one category, given the lines of the report: a line
    exactly when one of the two totals is positive, and on that line the
    sentinel when the previous total is 0 and the percentage otherwise. *)
Definition compared (lines : list (string * change)) (cat : string)
    (current previous : float) : Prop :=
  ((exists chg, (cat, chg) ∈ lines) <-> gt current zero || gt previous zero = true) /\
  (forall chg, (cat, chg) ∈ lines ->
     (is_zero previous = true -> chg = NoPriorData) /\
     (is_zero previous = false -> chg = Percent (delta_percent current previous))).





(** A text is [x] rounded to one decimal: the tenths it writes are the
    integer nearest to ten times the magnitude of [x], the even one of two
    that are equally near.  The magnitude is [m * 2 ^ e]; both sides of the
    comparison are scaled by the power of two that clears the denominator. *)
Definition one_decimal (x : float) (text : string) : Prop :=
  match Prim2SF x with
  | S754_nan => text = "nan"
  | S754_infinity s => text = if s then "-inf" else "inf"
  | S754_zero s => text = if s then "-0.0" else "0.0"
  | S754_finite s m e =>
      exists tenths : Z,
        0 <= tenths /\
        text = (if s then "-" else "") +:+ dec (tenths / 10) +:+ "." +:+ dec (tenths mod 10) /\
        let scale := 2 ^ Z.max 0 (- e) in
        let exact := 10 * Zpos m * 2 ^ Z.max 0 e in
        2 * Z.abs (exact - tenths * scale) <= scale /\
        (2 * Z.abs (exact - tenths * scale) = scale -> Z.even tenths = true)
  end.

(** The category is compared, and its line reads as the claim says: the
    sentinel when the previous total is 0, and otherwise the percentage
    rounded to one decimal, with the percent sign. *)
Definition compared_text (lines : list (string * change)) (cat : string)
    (current previous : float) : Prop :=
  compared lines cat current previous /\
  forall chg, (cat, chg) ∈ lines ->
    (is_zero previous = true -> printed_line (cat, chg) = cat +:+ ": 无上月数据") /\
    (is_zero previous = false ->
     exists text,
       one_decimal (delta_percent current previous) text /\
       printed_line (cat, chg) = cat +:+ ": " +:+ text +:+ "%").

(** The call that ended a monthly report: the font lookup, the loading of
    the font, the pie chart, or the reading of a month key that is not two
    integers around a hyphen. *)
Definition drawing_failure (h : Host.host) (L : ledger) (month_key : string)
    (e : py_exn) : Prop :=
  Host.get_font_path h = Raise e \/
  exists font_path,
    Host.get_font_path h = Ok font_path /\
    (Host.font_properties h font_path = Raise e \/
     Host.pie_chart h font_path month_key (Host.pie_of L month_key) = Raise e).


(** The report of a month whose key has the previous period [prev].  It
    ends early only in a call outside the comparison.  Once the font is
    found, a month whose total is 0 gets the message that it has no
    records; any other month, once its pie chart is drawn, gets its total
    and, for every category, the comparison with the period [prev]. *)
Definition month_reported (h : Host.host) (L : ledger) (month_key prev : string) : Prop :=
  let current_totals := fst (get_monthly_summary L month_key) in
  let prev_totals := fst (get_monthly_summary L prev) in
  let total := snd (get_monthly_summary L month_key) in
  prev_month month_key = Ok prev /\
  (forall e, Host.generate_monthly_report h L month_key = MonthlyFailed e ->
     drawing_failure h L month_key e) /\
  (forall font_path,
     Host.font_found h font_path ->
     (is_zero total = true ->
      Host.generate_monthly_report h L month_key = MonthWithoutRecords) /\
     (is_zero total = false ->
      Host.pie_chart h font_path month_key (Host.pie_of L month_key) = Ok tt ->
      exists lines,
        Host.generate_monthly_report h L month_key =
          MonthlyReport total (Host.pie_of L month_key) lines /\
        forall cat, cat ∈ categories ->
          compared_text lines cat
            (totals_get current_totals cat) (totals_get prev_totals cat))).


(** January 2024 with 100 on food; February 2024 with 150 on food and 5 on
    transport. *)
Definition two_months : ledger :=
  <[ "2024-02" := {[ "吃饭" := [Expense "2024/02/14" "黄焖鸡米饭" 150 "吃饭"];
                    "交通" := [Expense "2024/02/14" "地铁" 5 "交通"] ]} ]> january_only.

(** ** Persistence and the ledger invariant *)

(** Every period key of the ledger holds at least one category key, as
    after any [extend]. *)
Definition no_vacant_period (L : ledger) : Prop :=
  forall month_key cats, L !! month_key = Some cats -> cats <> ∅.

(** The period key of the month a stored date lies in. *)
Definition period_of_date (date_str : string) : option string :=
  match strptime date_str with
  | Ok (year, month, _) => Some (month_key_of year month)
  | Raise _ => None
  end.

(** A record is filed under its own period and its own category. *)
Definition filed_under (month_key cat : string) (e : expense) : Prop :=
  period_of_date (date e) = Some month_key /\ category e = cat.

(** The invariant of the ledger: every record in [Ledger[period][category]]
    is filed under that period and that category. *)
Definition ledger_inv (L : ledger) : Prop :=
  forall month_key cats cat es e,
    L !! month_key = Some cats -> cats !! cat = Some es -> e ∈ es ->
    filed_under month_key cat e.

(** The same for the document of a durable file. *)
Definition file_inv (f : durable_file) : Prop :=
  match f with
  | Saved doc =>
      forall month cats cat es e,
        (month, cats) ∈ doc -> (cat, es) ∈ cats -> e ∈ es -> filed_under month cat e
  | _ => True
  end.

(** The states a tracker passes through: the ledger satisfies its
    invariant, has no vacant period, and is what the file holds. *)
Definition tracker_inv (st : tracker) : Prop :=
  ledger_inv (expenses st) /\
  no_vacant_period (expenses st) /\
  ((file st = NoFile /\ expenses st = ∅) \/ file st = save_data (expenses st)).

(** The states of a tracker whose first session finds the file [f], whoever
    wrote it. *)
Inductive reachable_from (str_lower : string -> string) (f : durable_file)
  : tracker -> Prop :=
| reachable_from_start : reachable_from str_lower f (start f)
| reachable_from_step st st' :
    reachable_from str_lower f st -> step str_lower st st' ->
    reachable_from str_lower f st'.

(** A ledger with one period that holds no category, as a [defaultdict]
    has it once the period was looked up with a subscript. *)
Definition vacant_ledger : ledger := {[ "2024-02" := ∅ ]}.

(** A file, written by hand, whose one record lies in 2023-01 and names the
    category "交通", under the period 2024-02 and the category "吃饭". *)
Definition misfiled_file : durable_file :=
  Saved [("2024-02", [("吃饭", [Expense "2023/01/05" "车票" 12 "交通"])])].

(** The tracker after scenario A, one entry typed at the prompt. *)
Definition after_scenario_a : tracker :=
  fst (add_expense ascii_lower (start NoFile) "2024/02/14" "黄焖鸡米饭" 25 None).

(** * Further vocabulary *)

(** ** Texts on which digits are ASCII *)

(** A text of ASCII characters. *)
Fixpoint ascii_text (s : string) : bool :=
  match s with
  | EmptyString => true
  | String c s' => (N_of_ascii c <? 128)%N && ascii_text s'
  end.

(** The UTF-8 bytes of a CJK unified ideograph, U+4E00 to U+9FFF, and of
    the full-width comma, U+FF0C. *)
Definition ideograph (a b c : ascii) : bool :=
  let '(x, y, z) := (N_of_ascii a, N_of_ascii b, N_of_ascii c) in
  ((228 <=? x) && (x <=? 233) && (128 <=? y) && (y <=? 191) &&
   (128 <=? z) && (z <=? 191) && ((228 <? x) || (184 <=? y)))%N.

Definition full_width_comma (a b c : ascii) : bool :=
  ascii_eqb a "239" && ascii_eqb b "188" && ascii_eqb c "140".

(** A text of ASCII characters, CJK unified ideographs and full-width
    commas.  None of its characters beyond ASCII is a decimal digit or white
    space, so that [\d], [int], [float] and [strptime] read it as they read
    ASCII. *)
Fixpoint plain_text (s : string) : bool :=
  match s with
  | EmptyString => true
  | String a rest =>
      if (N_of_ascii a <? 128)%N then plain_text rest
      else
        match rest with
        | String b (String c rest') =>
            (ideograph a b c || full_width_comma a b c) && plain_text rest'
        | _ => false
        end
  end.

(** ** Calendar dates and the effect of [add_expense] *)

(** A day of the calendar, as [datetime] accepts it. *)
Definition calendar_day (year month day : Z) : Prop :=
  1 <= year <= 9999 /\ 1 <= month <= 12 /\ 1 <= day <= days_in_month year month.

(** The category under which [add_expense] files an entry. *)
Definition filed_category (str_lower : string -> string) (description : string)
    (category : option string) : string :=
  match category with
  | None => categorize_description str_lower description
  | Some given => given
  end.

(** What a successful [add_expense] does to a tracker [st], given the day
    that the normalised date names: it returns [True], the record is the
    last one of its list, every other list is as before, and the file holds
    the new ledger. *)
Definition added (str_lower : string -> string) (st : tracker)
    (date_str description : string) (amount : float) (category : option string)
    (year month : Z) : Prop :=
  let result := add_expense str_lower st date_str description amount category in
  let st' := fst result in
  let cat := filed_category str_lower description category in
  let key := month_key_of year month in
  let e := Expense (normalize_date date_str) description amount cat in
  snd result = true /\
  records (expenses st') key cat = records (expenses st) key cat ++ [e] /\
  (forall key' cat', (key', cat') <> (key, cat) ->
     records (expenses st') key' cat' = records (expenses st) key' cat') /\
  file st' = save_data (expenses st').

(** ** Two-digit years *)

(** What claim C7 says.  The general rule: on a date of ASCII characters
    whose first field has two of them, [add_expense] parses the date with
    "20" in front; when
    that is no date nothing is stored, and otherwise the year lies in 2000
    to 2099 and the record is stored, with the completed date, under the
    period of that year and month.  Scenario B: the line is parsed into its
    three parts, and entering it stores the record of 2024/02/14 as the
    last one of the period 2024-02 and the category "交通", changes no other
    list, and writes the file. *)
Definition century_completed (str_lower : string -> string) : Prop :=
  (forall st date_str description amount category,
     ascii_text date_str = true ->
     py_len (first_field "/" date_str) = 2%nat ->
     normalize_date date_str = "20" +:+ date_str /\
     (forall e, strptime ("20" +:+ date_str) = Raise e ->
        add_expense str_lower st date_str description amount category = (st, false)) /\
     (forall year month day,
        strptime ("20" +:+ date_str) = Ok (year, month, day) ->
        2000 <= year <= 2099 /\
        added str_lower st date_str description amount category year month)) /\
  parse_input "24/02/14，地铁-5" = Some ("24/02/14", "地铁", 5%float, None) /\
  (forall st,
     let stored := Expense "2024/02/14" "地铁" 5 "交通" in
     let st' := enter str_lower st "24/02/14，地铁-5" in
     add_expense str_lower st "24/02/14" "地铁" 5 None = (st', true) /\
     records (expenses st') "2024-02" "交通" =
       records (expenses st) "2024-02" "交通" ++ [stored] /\
     (forall month_key cat,
        (month_key, cat) <> ("2024-02", "交通") ->
        records (expenses st') month_key cat = records (expenses st) month_key cat) /\
     file st' = save_data (expenses st')).

(** ** Loading, restarting, and the totals after an entry *)

(** The records that a document holds for a period and a category, in the
    order of the file. *)
Definition cats_records (cats : list (string * list expense)) (cat : string)
  : list expense :=
  flat_map (fun '(c, es) => if String.eqb c cat then es else []) cats.

Definition doc_records (doc : document) (month cat : string) : list expense :=
  flat_map (fun '(m, cats) => if String.eqb m month then cats_records cats cat else [])
    doc.

(** The total that [get_monthly_summary] returns for a category. *)
(** The value that a JSON object gives a key: that of the last member with
    the key.  The records that a document gives a period and a category are
    read that way at both levels. *)
Fixpoint last_value {A : Type} (members : list (string * A)) (k : string) : option A :=
  match members with
  | [] => None
  | (k', v) :: rest =>
      match last_value rest k with
      | Some later => Some later
      | None => if String.eqb k' k then Some v else None
      end
  end.

Definition loaded_records (doc : document) (month cat : string) : list expense :=
  match last_value doc month with
  | Some cats => default [] (last_value cats cat)
  | None => []
  end.

Definition category_total (L : ledger) (month_key cat : string) : float :=
  totals_get (fst (get_monthly_summary L month_key)) cat.

(** ** The main category of a year *)

(** An item of a list that is greatest, and the first one of its key: it is
    at some index of the list, no item has a greater key, and no item before
    it has an equal key. *)
Definition first_greatest (items : list (string * float)) (best : string * float)
  : Prop :=
  exists i, items !! i = Some best /\
    (forall y, y ∈ items -> gt (snd y) (snd best) = false) /\
    (forall j y, (j < i)%nat -> items !! j = Some y ->
                 PrimFloat.eqb (snd y) (snd best) = false).

(** [category_year_totals] of the yearly report. *)
Definition category_year_totals (L : ledger) (year : string) : list (string * float) :=
  map (fun cat => (cat, py_sum (yearly_data L year cat))) categories.

(** The total of one month of a year, as [yearly_totals] lists it. *)
Definition month_total (L : ledger) (year : string) (month : Z) : float :=
  snd (get_monthly_summary L (year +:+ "-" +:+ dec02 month)).

(** What the yearly report is, for a year whose monthly totals do not sum to
    zero: it is produced, with the yearly total, the monthly average and the
    months above the average. *)
Definition yearly_figures (L : ledger) (year : string) : Prop :=
  let total := py_sum (yearly_totals L year) in
  exists r, generate_yearly_report L year = YearlyReport r /\
    total_year r = total /\
    monthly_avg r = PrimFloat.div total twelve /\
    (forall month, month ∈ high_months r <->
       1 <= month <= 12 /\ gt (month_total L year month) (monthly_avg r) = true).

(** The yearly report on a host.  It ends early only in the font lookup,
    the loading of the font or the trend chart.  Once the font is found, a
    year whose monthly totals sum to 0 gets the message that it has no
    records; any other year, once its chart is drawn, gets the figures. *)
Definition year_reported (h : Host.host) (L : ledger) (year : string) : Prop :=
  let total := py_sum (yearly_totals L year) in
  (forall e, Host.generate_yearly_report h L year = YearlyFailed e ->
     Host.get_font_path h = Raise e \/
     exists font_path,
       Host.get_font_path h = Ok font_path /\
       (Host.font_properties h font_path = Raise e \/
        Host.trend_chart h font_path year (Host.plotted L year) = Raise e)) /\
  (forall font_path,
     Host.font_found h font_path ->
     (is_zero total = true -> Host.generate_yearly_report h L year = YearWithoutRecords) /\
     (is_zero total = false ->
      Host.trend_chart h font_path year (Host.plotted L year) = Ok tt ->
      Host.generate_yearly_report h L year = generate_yearly_report L year /\
      yearly_figures L year)).

(** On a host where the font is found and the charts are drawn, the two
    methods print what [generate_monthly_report] and
    [generate_yearly_report] return. *)
Definition drawn (h : Host.host) (L : ledger) : Prop :=
  exists font_path,
    Host.font_found h font_path /\
    (forall month_key,
       Host.pie_chart h font_path month_key (Host.pie_of L month_key) = Ok tt) /\
    (forall year,
       Host.trend_chart h font_path year (Host.plotted L year) = Ok tt).

(** What the yearly report names as the main category, with its share. *)
Definition yearly_main_category (L : ledger) (year : string) : Prop :=
  exists r best, generate_yearly_report L year = YearlyReport r /\
    first_greatest (category_year_totals L year) best /\
    max_category r = fst best /\
    max_category r ∈ categories /\
    max_share r =
      PrimFloat.mul (PrimFloat.div (snd best) (py_sum (yearly_totals L year))) hundred.

(** ** The menu: choice 2 *)

(** [$] of a pattern: the end of the text, or a newline that ends it. *)
Definition at_end (s : string) : bool :=
  match s with
  | EmptyString => true
  | String c EmptyString => ascii_eqb c "010"
  | String _ (String _ _) => false
  end.

(** [re.match(r'^\d{4}-(?:0[1-9]|1[0-2])$', month)] *)
Definition month_key_accepted (month : string) : bool :=
  match month with
  | String a (String b (String c (String d (String h (String m1 (String m2 rest)))))) =>
      is_digit a && is_digit b && is_digit c && is_digit d && ascii_eqb h "-" &&
      ((ascii_eqb m1 "0" && digit_in 1 9 m2) || (ascii_eqb m1 "1" && digit_in 0 2 m2)) &&
      at_end rest
  | _ => false
  end.

(** Choice 2 of the menu, on the text typed and stripped: [None] is the
    message about the format, after which the menu is shown again. *)
Definition menu_monthly_report (h : Host.host) (L : ledger) (month : string)
  : option monthly_outcome :=
  if month_key_accepted month then Some (Host.generate_monthly_report h L month) else None.

(** A line as [input()] returns it holds no newline. *)
Definition one_line (s : string) : Prop := contains (String "010" "") s = false.

(** ** What the patterns accept *)

Module RegexSpec.

Import Regex.

(** Every character of a text is of a class. *)
Fixpoint all_chars (cls : ascii -> bool) (s : string) : bool :=
  match s with
  | EmptyString => true
  | String c s' => cls c && all_chars cls s'
  end.

(** A number of repetitions is within the upper bound. *)
Definition within (hi : option nat) (n : nat) : Prop :=
  match hi with
  | None => True
  | Some h => (n <= h)%nat
  end.

(** The loop of [run] on a repetition, for a continuation [k]. *)
Definition rep_from (cls : ascii -> bool) (lo : nat) (hi : option nat)
    (k : string -> nat -> option (list nat)) : nat -> string -> nat -> option (list nat) :=
  fix rep (n : nat) (s : string) (pos : nat) {struct s} : option (list nat) :=
    let stop := if Nat.leb lo n then k s pos else None in
    match s with
    | String c s' =>
        if cls c && below hi n then
          match rep (S n) s' (S pos) with
          | Some marks => Some marks
          | None => stop
          end
        else stop
    | EmptyString => stop
    end.

(** A text begins with a match of a pattern: the literal texts are there,
    and each repetition is a run of its class, of a length within its
    bounds.  What follows the match is free. *)
Inductive parses : list item -> string -> Prop :=
| parses_nil s : parses [] s
| parses_chars text p s :
    parses p s -> parses (Chars text :: p) (text +:+ s)
| parses_mark p s :
    parses p s -> parses (Mark :: p) s
| parses_rep cls lo hi p w s :
    all_chars cls w = true -> (lo <= String.length w)%nat ->
    within hi (String.length w) ->
    parses p s -> parses (Rep cls lo hi :: p) (w +:+ s).

(** The match that [run] makes from offset [pos], with the offsets of its
    marks: of the matches of the pattern it is the one in which every
    repetition, from left to right, is as long as the rest of the pattern
    allows. *)
Inductive chosen : list item -> string -> nat -> list nat -> Prop :=
| chosen_nil s pos : chosen [] s pos []
| chosen_chars text p s pos marks :
    chosen p s (pos + String.length text) marks ->
    chosen (Chars text :: p) (text +:+ s) pos marks
| chosen_mark p s pos marks :
    chosen p s pos marks -> chosen (Mark :: p) s pos (pos :: marks)
| chosen_rep cls lo hi p w s pos marks :
    all_chars cls w = true -> (lo <= String.length w)%nat ->
    within hi (String.length w) ->
    chosen p s (pos + String.length w) marks ->
    (forall w' s',
       w +:+ s = w' +:+ s' -> (String.length w < String.length w')%nat ->
       all_chars cls w' = true -> within hi (String.length w') -> ~ parses p s') ->
    chosen (Rep cls lo hi :: p) (w +:+ s) pos marks.

End RegexSpec.

(** ** Entries, as [parse_input] reads them *)

(** The parts of an entry: the three fields of the date, the description,
    and the amount with the digits before its point, the point if there is
    one, and the digits after it. *)
Record entry : Type := Entry {
  entry_year : string;
  entry_month : string;
  entry_day : string;
  entry_description : string;
  entry_whole : string;
  entry_point : string;
  entry_fraction : string
}.

Definition entry_date (e : entry) : string :=
  entry_year e +:+ "/" +:+ entry_month e +:+ "/" +:+ entry_day e.

Definition entry_token (e : entry) : string :=
  entry_whole e +:+ entry_point e +:+ entry_fraction e.

(** The entry as it is typed: date, full-width comma, description, hyphen,
    amount. *)
Definition entry_text (e : entry) : string :=
  entry_date e +:+ "，" +:+ entry_description e +:+ "-" +:+ entry_token e.

Definition between (lo hi : nat) (s : string) : Prop :=
  (lo <= String.length s <= hi)%nat.

(** The form that the pattern asks of the parts. *)
Definition well_formed (e : entry) : Prop :=
  all_digits (entry_year e) = true /\ between 2 4 (entry_year e) /\
  all_digits (entry_month e) = true /\ between 1 2 (entry_month e) /\
  all_digits (entry_day e) = true /\ between 1 2 (entry_day e) /\
  RegexSpec.all_chars not_newline (entry_description e) = true /\
  entry_description e <> "" /\
  all_digits (entry_whole e) = true /\ entry_whole e <> "" /\
  (entry_point e = "" \/ entry_point e = ".") /\
  all_digits (entry_fraction e) = true.

(** A line begins with an entry. *)
Definition begins_with_entry (line : string) : Prop :=
  exists e rest, well_formed e /\ line = entry_text e +:+ rest.

(** The amount of an entry, as [float] reads its token. *)
Definition entry_amount (e : entry) : float :=
  of_decimal (digits_value 0%N (entry_whole e +:+ entry_fraction e))
    (match entry_point e with
     | EmptyString => 0%nat
     | _ => String.length (entry_fraction e)
     end).

(** A text begins with a hyphen that a digit follows. *)
Definition hyphen_digit (s : string) : bool :=
  match s with
  | String h (String c _) => ascii_eqb h "-" && is_digit c
  | _ => false
  end.

(** The description of an entry is the longest that the line allows: no
    longer text without a newline, taken from the same place, is followed by
    a hyphen and a digit. *)
Definition longest_description (e : entry) (rest : string) : Prop :=
  forall longer after,
    entry_description e +:+ "-" +:+ entry_token e +:+ rest = longer +:+ after ->
    (String.length (entry_description e) < String.length longer)%nat ->
    RegexSpec.all_chars not_newline longer = true ->
    hyphen_digit after = false.

(** The amount of an entry is the longest that the line allows: all the
    digits that follow the hyphen, the point that follows them, if there is
    one, and all the digits that follow the point. *)
Definition longest_token (e : entry) (rest : string) : Prop :=
  match rest with
  | EmptyString => True
  | String c _ =>
      is_digit c = false /\
      (entry_point e = "" -> entry_fraction e = "" /\ is_point c = false)
  end.

(** What comes in the pattern after the description, after the digits
    before the point, and after the point. *)
Definition after_description : list Regex.item :=
  [ Regex.Mark; Regex.Chars "-"; Regex.Mark;
    Regex.Rep is_digit 1 None; Regex.Rep is_point 0 (Some 1%nat);
    Regex.Rep is_digit 0 None; Regex.Mark ].

Definition after_whole : list Regex.item :=
  [ Regex.Rep is_point 0 (Some 1%nat); Regex.Rep is_digit 0 None; Regex.Mark ].

Definition after_point_item : list Regex.item :=
  [ Regex.Rep is_digit 0 None; Regex.Mark ].

(** What [parse_input] returns for a line is read off an entry at its head:
    the date, the description and the amount of the entry, no category, the
    description and the amount being the longest that the line allows. *)
Definition parsed_as (line : string)
    (parsed : string * string * float * option string) : Prop :=
  exists e rest,
    well_formed e /\ line = entry_text e +:+ rest /\
    parsed = (entry_date e, entry_description e, entry_amount e, None) /\
    longest_description e rest /\ longest_token e rest.

(** What choice 1 of the menu does with a typed line. *)
Definition entered (str_lower : string -> string) (st : tracker) (line : string) : Prop :=
  (~ begins_with_entry line /\ enter str_lower st line = st) \/
  exists e rest,
    well_formed e /\ line = entry_text e +:+ rest /\
    ((exists exn, strptime (normalize_date (entry_date e)) = Raise exn /\
                  enter str_lower st line = st) \/
     (exists year month day,
        strptime (normalize_date (entry_date e)) = Ok (year, month, day) /\
        calendar_day year month day /\
        enter str_lower st line =
          fst (add_expense str_lower st (entry_date e) (entry_description e)
                 (entry_amount e) None) /\
        added str_lower st (entry_date e) (entry_description e) (entry_amount e) None
          year month /\
        categorize_description str_lower (entry_description e) ∈ categories)).

(** ** What the ledger and the file hold *)

(** No category key of the ledger holds an empty list. *)
Definition no_empty_list (L : ledger) : Prop :=
  forall month_key cats cat es,
    L !! month_key = Some cats -> cats !! cat = Some es -> es <> [].

(** A ledger without idle keys or stray records: every period key holds a
    category key, every category key holds a record, and every record has a
    date that is a day of the calendar, in the month of its period key, and
    the category of its category key. *)
Definition well_kept (L : ledger) : Prop :=
  forall month_key cats,
    L !! month_key = Some cats ->
    cats <> ∅ /\
    forall cat es,
      cats !! cat = Some es ->
      es <> [] /\
      forall e, e ∈ es ->
        category e = cat /\
        exists year month day,
          strptime (date e) = Ok (year, month, day) /\
          calendar_day year month day /\
          month_key = month_key_of year month.

(** What [save_data] writes for a ledger: a document in which no period and,
    within a period, no category comes twice, and which holds for every
    period and category the records of the ledger, in their order. *)
Definition written (L : ledger) (doc : document) : Prop :=
  NoDup doc.*1 /\
  (forall month cats, (month, cats) ∈ doc -> NoDup cats.*1) /\
  (forall month cat, doc_records doc month cat = records L month cat).

(** * Verification *)

(** ** Auxiliary facts *)

Lemma bind_Ok {A B : Type} (a : A) (k : A -> result B) : (Ok a ≫= k) = k a.
Proof. reflexivity. Qed.

Lemma bind_Raise {A B : Type} (e : py_exn) (k : A -> result B) :
  (Raise e ≫= k) = Raise e.
Proof. reflexivity. Qed.

Lemma py_div_nonzero (x y : float) :
  is_zero y = false -> py_div x y = Ok (PrimFloat.div x y).
Proof. intros H. unfold py_div. now rewrite H. Qed.

(** A ratio above [0.1] is not below [-0.1]: the first is positive, the
    second negative. *)
Lemma gt_tenth_not_lt (x : float) :
  gt x tenth = true -> lt x (PrimFloat.opp tenth) = false.
Proof.
  unfold gt, lt. rewrite !ltb_spec.
  replace (Prim2SF tenth) with (S754_finite false 7205759403792794 (-56))
    by (vm_compute; reflexivity).
  replace (Prim2SF (- tenth)) with (S754_finite true 7205759403792794 (-56))
    by (vm_compute; reflexivity).
  unfold SFltb, SFcompare.
  destruct (Prim2SF x) as [s|s| |s m e]; try destruct s;
    intros H; try discriminate H; reflexivity.
Qed.

(** ** The yearly trend *)

Lemma yearly_totals_ends (L : ledger) (year : string) :
  exists mid, length mid = 10%nat /\
    yearly_totals L year = january_total L year :: mid ++ [december_total L year].
Proof.
  eexists [_; _; _; _; _; _; _; _; _; _]. split; reflexivity.
Qed.

Lemma py_item_first (x : float) (xs : list float) : py_item (x :: xs) 0 = Ok x.
Proof.
  unfold py_item. cbn [Z.ltb Z.compare].
  replace (0 <=? 0) with true by reflexivity.
  replace (0 <? Z.of_nat (length (x :: xs))) with true; [reflexivity|].
  symmetry. apply Z.ltb_lt. cbn [length]. lia.
Qed.

Lemma py_item_last (x y : float) (xs : list float) :
  py_item (x :: xs ++ [y]) (-1) = Ok y.
Proof.
  unfold py_item. change (-1 <? 0) with true. cbv iota.
  set (n := Z.of_nat (length (x :: xs ++ [y]))).
  assert (Hn : n = Z.of_nat (length xs) + 2).
  { unfold n. cbn [length]. rewrite length_app. cbn [length]. lia. }
  replace (0 <=? -1 + n) with true by (symmetry; apply Z.leb_le; lia).
  replace (-1 + n <? n) with true by (symmetry; apply Z.ltb_lt; lia).
  cbn [andb].
  replace (Z.to_nat (-1 + n)) with (S (length xs)) by lia.
  change ((x :: xs ++ [y]) !! S (length xs)) with ((xs ++ [y]) !! length xs).
  rewrite list_lookup_middle by reflexivity. reflexivity.
Qed.

Lemma trend_of_ends (jan dec : float) (mid : list float) :
  trend_of (jan :: mid ++ [dec]) = Ok (trend_ratio jan dec).
Proof.
  unfold trend_of, trend_ratio. rewrite py_item_first, bind_Ok.
  destruct (is_zero jan) eqn:Hjan; cbn [negb]; [reflexivity|].
  rewrite py_item_last, bind_Ok. now apply py_div_nonzero.
Qed.

(** A year with a non-zero total gets its report, and the trend line of the
    report is the label of the ratio. *)
Lemma yearly_report_trend (L : ledger) (year : string) :
  is_zero (py_sum (yearly_totals L year)) = false ->
  exists r, generate_yearly_report L year = YearlyReport r /\
            trend r = trend_label_of
                        (trend_ratio (january_total L year) (december_total L year)).
Proof.
  intros Hsum. unfold generate_yearly_report. rewrite Hsum.
  unfold yearly_analysis.
  change (py_max (map _ categories)) with
    (Ok (max_from ("吃饭", py_sum (yearly_data L year "吃饭"))
           (map (fun cat => (cat, py_sum (yearly_data L year cat)))
              ["娱乐"; "交通"; "购物"; "其他"]))).
  rewrite bind_Ok, (py_div_nonzero _ _ Hsum), bind_Ok.
  rewrite (py_div_nonzero _ twelve) by reflexivity. rewrite bind_Ok.
  destruct (yearly_totals_ends L year) as (mid & _ & ->).
  rewrite trend_of_ends, bind_Ok.
  eexists. split; reflexivity.
Qed.

(** C2.  For every year whose total is not zero the yearly report is
    produced, and its trend label is "rising" exactly when
    (December - January) / January > 0.1, "falling" exactly when that ratio
    is < -0.1, and "stable" otherwise; when January is 0 the ratio is taken
    as 0 and the label is "stable". *)
Theorem yearly_trend_classification (L : ledger) (year : string) :
  is_zero (py_sum (yearly_totals L year)) = false ->
  trend_classified L year.
Proof.
  intros Hsum. destruct (yearly_report_trend L year Hsum) as (r & Hr & Ht).
  exists r. split; [exact Hr|]. split; [exact Ht|].
  rewrite Ht. unfold trend_ratio. split.
  - intros ->. split; reflexivity.
  - intros ->. unfold trend_label_of.
    set (ratio := PrimFloat.div _ _).
    destruct (gt ratio tenth) eqn:Hup.
    + rewrite (gt_tenth_not_lt _ Hup). repeat split; intros; try done.
      destruct H; done.
    + destruct (lt ratio (- tenth)) eqn:Hdown; repeat split; intros; try done.
      destruct H; done.
Qed.

Lemma yearly_trend_classification_witness : trend_classified january_only "2024".
Proof.
  apply (yearly_trend_classification january_only "2024").
  vm_compute. reflexivity.
Defined.

(** C1, as the specification words it, fails: a year whose totals are
    100 in January and 0 in every other month has the ratio -1, and the
    report prints the falling trend. *)
Lemma january_only_year_is_falling :
  ~ (forall (L : ledger) (year : string),
       yearly_totals L year = 100%float :: repeat zero 11 ->
       forall r, generate_yearly_report L year = YearlyReport r ->
                 trend r <> Falling).
Proof.
  intros H.
  refine (H january_only "2024" _ _ _ _).
  - vm_compute. reflexivity.
  - vm_compute. reflexivity.
  - reflexivity.
Qed.

Lemma yearly_totals_ends_inv (L : ledger) (year : string) (jan dec : float)
    (mid : list float) :
  yearly_totals L year = jan :: mid ++ [dec] ->
  january_total L year = jan /\ december_total L year = dec.
Proof.
  destruct (yearly_totals_ends L year) as (mid' & _ & ->).
  intros H. injection H as -> H. apply app_inj_tail in H as [_ ->]. done.
Qed.

(** C1, amended.  A year whose monthly totals are 100 in January and 0 in
    every other month is reported as "falling" (ratio -1 < -0.1); a year with
    100 in January and 130 in December is reported as "rising"
    (ratio 0.3 > 0.1), whatever the months in between. *)
Theorem yearly_trend_scenarios :
  (forall (L : ledger) (year : string),
     yearly_totals L year = 100%float :: repeat zero 11 ->
     exists r, generate_yearly_report L year = YearlyReport r /\ trend r = Falling) /\
  (forall (L : ledger) (year : string) (mid : list float),
     yearly_totals L year = 100%float :: mid ++ [130%float] ->
     forall r, generate_yearly_report L year = YearlyReport r -> trend r = Rising) /\
  (forall (L : ledger) (year : string),
     yearly_totals L year = 100%float :: repeat zero 10 ++ [130%float] ->
     exists r, generate_yearly_report L year = YearlyReport r /\ trend r = Rising).
Proof.
  split; [|split].
  - intros L year Htotals.
    assert (Hsum : is_zero (py_sum (yearly_totals L year)) = false)
      by (rewrite Htotals; vm_compute; reflexivity).
    destruct (yearly_report_trend L year Hsum) as (r & Hr & Ht).
    exists r. split; [exact Hr|]. rewrite Ht.
    destruct (yearly_totals_ends_inv L year 100 zero (repeat zero 10) Htotals) as [-> ->].
    vm_compute. reflexivity.
  - intros L year mid Htotals r Hr.
    destruct (is_zero (py_sum (yearly_totals L year))) eqn:Hsum.
    + unfold generate_yearly_report in Hr. rewrite Hsum in Hr. discriminate Hr.
    + destruct (yearly_report_trend L year Hsum) as (r' & Hr' & Ht).
      rewrite Hr in Hr'. injection Hr' as <-. rewrite Ht.
      destruct (yearly_totals_ends_inv L year _ _ _ Htotals) as [-> ->].
      vm_compute. reflexivity.
  - intros L year Htotals.
    assert (Hsum : is_zero (py_sum (yearly_totals L year)) = false)
      by (rewrite Htotals; vm_compute; reflexivity).
    destruct (yearly_report_trend L year Hsum) as (r & Hr & Ht).
    exists r. split; [exact Hr|]. rewrite Ht.
    destruct (yearly_totals_ends_inv L year 100 130 (repeat zero 10) Htotals) as [-> ->].
    vm_compute. reflexivity.
Qed.

Lemma yearly_trend_scenarios_witness :
  (exists r, generate_yearly_report january_only "2024" = YearlyReport r /\
             trend r = Falling) /\
  (exists r, generate_yearly_report january_and_december "2024" = YearlyReport r /\
             trend r = Rising).
Proof.
  split.
  - apply (proj1 yearly_trend_scenarios january_only "2024").
    vm_compute. reflexivity.
  - apply (proj2 (proj2 yearly_trend_scenarios) january_and_december "2024").
    vm_compute. reflexivity.
Defined.

(** ** The categoriser *)

Lemma starts_with_spec (p s : string) :
  starts_with p s = true <-> exists rest, s = p +:+ rest.
Proof.
  revert s. induction p as [|a p IH]; intros s; cbn [starts_with].
  - split; [intros _; exists s; reflexivity | reflexivity].
  - destruct s as [|b s].
    + split; [discriminate | intros [rest Hrest]; discriminate Hrest].
    + rewrite andb_true_iff, IH. unfold ascii_eqb. rewrite Ascii.eqb_eq. split.
      * intros [-> [rest ->]]. exists rest. reflexivity.
      * intros [rest Hrest]. injection Hrest as -> ->. eauto.
Qed.

Lemma contains_unfold (needle hay : string) :
  contains needle hay =
    starts_with needle hay ||
    match hay with
    | EmptyString => false
    | String _ hay' => contains needle hay'
    end.
Proof. destruct hay; reflexivity. Qed.

(** The substring test of the code decides [substring_of]. *)
Lemma contains_spec (needle hay : string) :
  contains needle hay = true <-> substring_of needle hay.
Proof.
  unfold substring_of. split.
  - induction hay as [|c hay IH]; rewrite contains_unfold, orb_true_iff.
    + intros [H|H]; [|discriminate H].
      apply starts_with_spec in H as [rest ->]. exists EmptyString, rest. reflexivity.
    + intros [H|H].
      * apply starts_with_spec in H as [rest ->]. exists EmptyString, rest. reflexivity.
      * destruct (IH H) as (before & after & ->).
        exists (String c before), after. reflexivity.
  - intros (before & after & ->).
    induction before as [|c before IH]; rewrite contains_unfold, orb_true_iff.
    + left. apply starts_with_spec. exists after. reflexivity.
    + right. exact IH.
Qed.

Section Categoriser.

Variable str_lower : string -> string.

Lemma scan_keywords_Some cat keywords text found :
  scan_keywords str_lower cat keywords text = Some found ->
  found = cat /\
  exists keyword, keyword ∈ keywords /\ contains (str_lower keyword) text = true.
Proof.
  induction keywords as [|kw rest IH]; cbn [scan_keywords]; [discriminate|].
  destruct (contains (str_lower kw) text) eqn:Hkw.
  - intros [= <-]. split; [reflexivity|]. exists kw. split; [left|exact Hkw].
  - intros H. destruct (IH H) as (-> & kw' & Hin & Hc).
    split; [reflexivity|]. exists kw'. split; [right; exact Hin|exact Hc].
Qed.

Lemma scan_keywords_None cat keywords text :
  scan_keywords str_lower cat keywords text = None ->
  forall keyword, keyword ∈ keywords -> contains (str_lower keyword) text = false.
Proof.
  induction keywords as [|kw rest IH]; cbn [scan_keywords].
  - intros _ keyword Hin. inversion Hin.
  - destruct (contains (str_lower kw) text) eqn:Hkw; [discriminate|].
    intros H keyword Hin. inversion Hin; subst; [exact Hkw|]. now apply IH.
Qed.

Lemma scan_categories_Some table text found :
  scan_categories str_lower table text = Some found ->
  exists i keywords,
    table !! i = Some (found, keywords) /\
    (exists keyword, keyword ∈ keywords /\ contains (str_lower keyword) text = true) /\
    (forall j cat' keywords',
       (j < i)%nat -> table !! j = Some (cat', keywords') ->
       forall keyword, keyword ∈ keywords' -> contains (str_lower keyword) text = false).
Proof.
  induction table as [|[cat keywords] rest IH]; cbn [scan_categories]; [discriminate|].
  destruct (scan_keywords str_lower cat keywords text) as [found'|] eqn:Hscan.
  - intros [= ->]. apply scan_keywords_Some in Hscan as [-> Hkw].
    exists 0%nat, keywords. split; [reflexivity|]. split; [exact Hkw|].
    intros j ? ? Hj. lia.
  - intros H. destruct (IH H) as (i & kws & Hi & Hkw & Hbefore).
    exists (S i), kws. split; [exact Hi|]. split; [exact Hkw|].
    intros [|j] cat' kws' Hj Hlook.
    + injection Hlook as <- <-. now apply scan_keywords_None with (cat := cat).
    + apply (Hbefore j cat' kws'); [lia|exact Hlook].
Qed.

Lemma scan_categories_None table text :
  scan_categories str_lower table text = None ->
  forall cat keywords keyword,
    (cat, keywords) ∈ table -> keyword ∈ keywords ->
    contains (str_lower keyword) text = false.
Proof.
  induction table as [|[cat0 kws0] rest IH]; cbn [scan_categories].
  - intros _ cat keywords keyword Hin. inversion Hin.
  - destruct (scan_keywords str_lower cat0 kws0 text) eqn:Hscan; [discriminate|].
    intros H cat keywords keyword Hin Hkw. inversion Hin; subst.
    + now apply scan_keywords_None with (cat := cat0) (keywords := kws0).
    + now apply (IH H cat keywords).
Qed.

Lemma scan_categories_declared table text found :
  scan_categories str_lower table text = Some found -> found ∈ map fst table.
Proof.
  intros H. apply scan_categories_Some in H as (i & kws & Hi & _).
  apply list_elem_of_fmap. exists (found, kws). split; [reflexivity|].
  eapply list_elem_of_lookup_2. exact Hi.
Qed.

(** The scan over any table is the ordered first match. *)
Lemma scan_categories_first_match table text :
  keywords_fixed str_lower table ->
  first_match table text
    (match scan_categories str_lower table text with
     | Some found => found
     | None => default_category
     end).
Proof.
  intros Hfix.
  assert (Hyes : forall cat keywords keyword,
             (cat, keywords) ∈ table -> keyword ∈ keywords ->
             contains (str_lower keyword) text = true -> mentions keywords text).
  { intros cat keywords keyword Hin Hkw Hc. exists keyword. split; [exact Hkw|].
    apply contains_spec. now rewrite <- (Hfix cat keywords keyword). }
  assert (Hno : forall cat keywords,
             (cat, keywords) ∈ table ->
             (forall keyword, keyword ∈ keywords ->
                              contains (str_lower keyword) text = false) ->
             ~ mentions keywords text).
  { intros cat keywords Hin Hall (keyword & Hkw & Hsub).
    apply contains_spec in Hsub. rewrite <- (Hfix cat keywords keyword) in Hsub by done.
    rewrite (Hall keyword Hkw) in Hsub. discriminate Hsub. }
  assert (Hfirst : forall found i cat keywords,
             found = match scan_categories str_lower table text with
                     | Some found => found
                     | None => default_category
                     end ->
             table !! i = Some (cat, keywords) ->
             mentions keywords text ->
             (forall j cat' keywords',
                (j < i)%nat -> table !! j = Some (cat', keywords') ->
                ~ mentions keywords' text) ->
             found = cat).
  { intros found0 i' cat keywords -> Hi' Hm Hbefore'.
    assert (Hin' : (cat, keywords) ∈ table) by (eapply list_elem_of_lookup_2; exact Hi').
    destruct (scan_categories str_lower table text) as [found|] eqn:Hscan.
    - apply scan_categories_Some in Hscan as (i & kws & Hi & (kw & Hkw & Hc) & Hbefore).
      assert (Hin : (found, kws) ∈ table) by (eapply list_elem_of_lookup_2; exact Hi).
      destruct (lt_eq_lt_dec i i') as [[Hlt|Heq]|Hgt].
      + exfalso. apply (Hbefore' i found kws Hlt Hi). now apply (Hyes found kws kw).
      + subst i'. rewrite Hi in Hi'. now injection Hi' as -> ->.
      + exfalso. revert Hm. apply (Hno cat keywords Hin').
        now apply (Hbefore i' cat keywords).
    - exfalso. revert Hm. apply (Hno cat keywords Hin'). intros keyword Hkw.
      now apply (scan_categories_None table text Hscan cat keywords). }
  split; [|split].
  - intros i cat keywords. now apply Hfirst.
  - intros i j cat keywords cat' keywords' Hij Hi Hj Hm Hm' Hothers.
    apply (Hfirst _ i cat keywords eq_refl Hi Hm).
    intros k cat'' keywords'' Hk. apply Hothers; lia.
  - intros Hnone.
    destruct (scan_categories str_lower table text) as [found|] eqn:Hscan; [|reflexivity].
    exfalso.
    apply scan_categories_Some in Hscan as (i & kws & Hi & (kw & Hkw & Hc) & _).
    assert (Hin : (found, kws) ∈ table) by (eapply list_elem_of_lookup_2; exact Hi).
    apply (Hnone found kws Hin). now apply (Hyes found kws kw).
Qed.

End Categoriser.

Lemma lowers_keywords_fixed (str_lower : string -> string) :
  lowers_keywords str_lower -> keywords_fixed str_lower category_keywords.
Proof.
  intros Hall cat keywords keyword Hin Hkw.
  unfold lowers_keywords in Hall. rewrite Forall_forall in Hall. apply Hall.
  unfold all_keywords. apply list_elem_of_In, in_concat. exists keywords. split.
  - apply in_map_iff. exists (cat, keywords). split; [reflexivity|].
    now apply list_elem_of_In.
  - now apply list_elem_of_In.
Qed.

Lemma ascii_lower_keywords : lowers_keywords ascii_lower.
Proof. unfold lowers_keywords. vm_compute all_keywords. repeat constructor. Qed.

(** C3.  For every description, [categorize_description] returns one of
    the declared categories: it lower-cases the description, goes through the
    categories and, inside each, the keywords in declaration order, and
    returns the first category one of whose keywords is a substring of the
    lower-cased description; of two categories with such a keyword the
    earlier-declared one is returned, and the default category when no
    declared keyword occurs.  It is a total function of the description. *)
Theorem categorize_description_first_match
    (str_lower : string -> string) (description : string) :
  lowers_keywords str_lower ->
  classified str_lower description.
Proof.
  intros Hlow. split.
  - unfold categorize_description.
    destruct (scan_categories str_lower category_keywords (str_lower description))
      as [found|] eqn:Hscan.
    + now apply scan_categories_declared in Hscan.
    + unfold categories. cbn. set_solver.
  - apply (scan_categories_first_match str_lower category_keywords
             (str_lower description) (lowers_keywords_fixed str_lower Hlow)).
Qed.

Lemma categorize_description_first_match_witness :
  classified ascii_lower "打车去吃火锅".
Proof.
  apply (categorize_description_first_match ascii_lower "打车去吃火锅").
  exact ascii_lower_keywords.
Defined.

(** ** The monthly summary *)

Lemma summary_fold monthly_data cats category_totals total :
  fold_left (summary_step monthly_data) cats (category_totals, total) =
    (category_totals ++ map (fun cat => (cat, category_sum monthly_data cat)) cats,
     fold_left PrimFloat.add (map (category_sum monthly_data) cats) total).
Proof.
  revert category_totals total.
  induction cats as [|cat cats IH]; intros category_totals total; cbn [fold_left map].
  - now rewrite app_nil_r.
  - unfold summary_step at 2. rewrite IH, <- app_assoc. reflexivity.
Qed.

Lemma get_monthly_summary_eq (L : ledger) (month_key : string) :
  get_monthly_summary L month_key =
    (map (fun cat => (cat, category_sum (month_data L month_key) cat)) categories,
     py_sum (map (category_sum (month_data L month_key)) categories)).
Proof. unfold get_monthly_summary. now rewrite summary_fold. Qed.

(** C5.  For every ledger and every period key, the total returned by
    [get_monthly_summary] is the sum of the per-category totals it returns,
    one per declared category; and for a period key without records it
    returns the total 0 for every declared category and the overall total 0. *)
Theorem monthly_summary_conservation (L : ledger) (month_key : string) :
  conserved L month_key /\
  (no_records L month_key ->
   get_monthly_summary L month_key = (map (fun cat => (cat, zero)) categories, zero)).
Proof.
  split.
  - unfold conserved. rewrite get_monthly_summary_eq. split.
    + rewrite map_map. cbn [fst]. apply map_id.
    + now rewrite map_map.
  - intros Hnone. rewrite get_monthly_summary_eq.
    assert (Hzero : forall cat, category_sum (month_data L month_key) cat = zero).
    { intros cat. unfold category_sum. specialize (Hnone cat). unfold records in Hnone.
      now rewrite Hnone. }
    f_equal.
    + apply map_ext. intros cat. now rewrite Hzero.
    + rewrite (map_ext _ (fun _ => zero)) by exact Hzero. reflexivity.
Qed.

Lemma monthly_summary_conservation_witness :
  get_monthly_summary january_only "2024-02" =
    (map (fun cat => (cat, zero)) categories, zero).
Proof.
  apply (proj2 (monthly_summary_conservation january_only "2024-02")).
  intros cat. reflexivity.
Defined.

(** ** Categories outside the declared set *)

Lemma agree_summary (L L' : ledger) :
  agree_on_declared L L' ->
  forall month_key, get_monthly_summary L month_key = get_monthly_summary L' month_key.
Proof.
  intros Hagree month_key. rewrite !get_monthly_summary_eq.
  assert (Hsum : forall cat, In cat categories ->
            category_sum (month_data L month_key) cat =
            category_sum (month_data L' month_key) cat).
  { intros cat Hin. unfold category_sum.
    apply list_elem_of_In in Hin. specialize (Hagree month_key cat Hin).
    unfold records in Hagree. now rewrite Hagree. }
  f_equal.
  - apply map_ext_in. intros cat Hin. now rewrite (Hsum cat Hin).
  - f_equal. now apply map_ext_in.
Qed.

Lemma summaries_reports (L L' : ledger) :
  (forall month_key, get_monthly_summary L month_key = get_monthly_summary L' month_key) ->
  same_reports L L'.
Proof.
  intros Heq. split; [exact Heq|]. split.
  - intros month_key. unfold generate_monthly_report. rewrite Heq.
    destruct (get_monthly_summary L' month_key) as [category_totals total].
    destruct (is_zero total); [reflexivity|].
    destruct (prev_month month_key) as [prev|e]; [|reflexivity].
    rewrite !bind_Ok, Heq. reflexivity.
  - intros year.
    assert (Htotals : yearly_totals L year = yearly_totals L' year).
    { unfold yearly_totals. apply map_ext. intros month. now rewrite Heq. }
    assert (Hdata : forall cat, yearly_data L year cat = yearly_data L' year cat).
    { intros cat. unfold yearly_data. apply map_ext. intros month. now rewrite Heq. }
    unfold generate_yearly_report, yearly_analysis. rewrite Htotals.
    rewrite (map_ext (fun cat => (cat, py_sum (yearly_data L year cat)))
               (fun cat => (cat, py_sum (yearly_data L' year cat))))
      by (intros cat; now rewrite Hdata).
    reflexivity.
Qed.

Lemma records_extend_ne (L : ledger) (month_key cat : string) (more : list expense)
    (month_key' cat' : string) :
  cat' <> cat ->
  records (ledger_extend L month_key cat more) month_key' cat' = records L month_key' cat'.
Proof.
  intros Hne. unfold records, month_data, ledger_extend.
  destruct (decide (month_key = month_key')) as [->|Hm].
  - rewrite lookup_insert_eq. simpl. now rewrite lookup_insert_ne by congruence.
  - now rewrite lookup_insert_ne.
Qed.

Lemma records_extend_eq (L : ledger) (month_key cat : string) (more : list expense) :
  records (ledger_extend L month_key cat more) month_key cat =
    records L month_key cat ++ more.
Proof.
  unfold records at 1, month_data at 1, ledger_extend.
  rewrite lookup_insert_eq. simpl. now rewrite lookup_insert_eq.
Qed.

Lemma records_extend_other_month (L : ledger) (month_key cat : string)
    (more : list expense) (month_key' cat' : string) :
  month_key' <> month_key ->
  records (ledger_extend L month_key cat more) month_key' cat' = records L month_key' cat'.
Proof.
  intros Hne. unfold records, month_data, ledger_extend.
  now rewrite lookup_insert_ne by congruence.
Qed.

(** C10.  [get_monthly_summary] sums the records under the five declared
    category keys only: two ledgers that differ only under other category
    keys have the same per-category totals, the same overall totals and the
    same monthly and yearly reports; in particular records put under an
    undeclared category key, by a load or by an explicit category of
    [add_expense], change no total and no report. *)
Theorem undeclared_categories_ignored :
  (forall L L' : ledger, agree_on_declared L L' -> same_reports L L') /\
  (forall (L : ledger) (month_key cat : string) (more : list expense),
     cat ∉ categories -> same_reports (ledger_extend L month_key cat more) L).
Proof.
  split.
  - intros L L' Hagree. apply summaries_reports, agree_summary, Hagree.
  - intros L month_key cat more Hcat. apply summaries_reports, agree_summary.
    intros month_key' cat' Hin. apply records_extend_ne. intros ->. contradiction.
Qed.

Lemma undeclared_categories_ignored_witness :
  same_reports
    (ledger_extend january_only "2024-01" "礼物" [Expense "2024/01/31" "花" 999 "礼物"])
    january_only.
Proof.
  apply (proj2 undeclared_categories_ignored january_only "2024-01" "礼物").
  apply (bool_decide_unpack _). vm_compute. exact I.
Defined.

(** ** The month-over-month comparison *)

Lemma change_of_Ok (current previous : float) :
  change_of current previous =
    Ok (if is_zero previous then NoPriorData
        else Percent (delta_percent current previous)).
Proof.
  unfold change_of. destruct (is_zero previous) eqn:Hprev; [reflexivity|].
  now rewrite (py_div_nonzero _ _ Hprev), bind_Ok.
Qed.

Lemma comparison_Ok category_totals prev_totals cats :
  NoDup cats ->
  exists lines,
    comparison category_totals prev_totals cats = Ok lines /\
    (forall cat chg, (cat, chg) ∈ lines -> cat ∈ cats) /\
    (forall cat, cat ∈ cats ->
       compared lines cat (totals_get category_totals cat) (totals_get prev_totals cat)).
Proof.
  induction cats as [|cat cats IH]; intros Hnodup; cbn [comparison].
  - exists []. split; [reflexivity|]. split; [intros ? ? H|intros ? H]; inversion H.
  - apply NoDup_cons in Hnodup as [Hfresh Hnodup].
    destruct (IH Hnodup) as (lines & -> & Hdom & Hlines).
    rewrite change_of_Ok, !bind_Ok.
    set (current := totals_get category_totals cat).
    set (previous := totals_get prev_totals cat).
    set (chg0 := if is_zero previous then NoPriorData
                 else Percent (delta_percent current previous)).
    eexists. split; [reflexivity|].
    assert (Hnot : forall chg, (cat, chg) ∉ lines)
      by (intros chg Hin; apply Hfresh, (Hdom cat chg Hin)).
    destruct (gt current zero || gt previous zero) eqn:Hshow.
    + split.
      * intros c chg Hin. apply elem_of_cons in Hin as [[= -> ->]|Hin]; [left|].
        right. exact (Hdom c chg Hin).
      * intros c Hc. apply elem_of_cons in Hc as [->|Hc].
        -- fold current previous. split.
           ++ split; [intros _; exact Hshow|]. intros _. exists chg0. left.
           ++ intros chg Hin. apply elem_of_cons in Hin as [[= ->]|Hin];
                [|now apply Hnot in Hin].
              unfold chg0. split; intros ->; reflexivity.
        -- destruct (Hlines c Hc) as [Hiff Hval].
           assert (Hne : c <> cat) by (intros ->; contradiction).
           split.
           ++ rewrite <- Hiff. split; intros [chg Hin]; exists chg.
              ** apply elem_of_cons in Hin as [[= ? ?]|Hin]; [contradiction|exact Hin].
              ** right. exact Hin.
           ++ intros chg Hin. apply Hval.
              apply elem_of_cons in Hin as [[= ? ?]|Hin]; [contradiction|exact Hin].
    + split; [intros c chg Hin; right; exact (Hdom c chg Hin)|].
      intros c Hc. apply elem_of_cons in Hc as [->|Hc]; [|exact (Hlines c Hc)].
      fold current previous. split.
      * split; [intros [chg Hin]; now apply Hnot in Hin|]. rewrite Hshow. discriminate.
      * intros chg Hin. now apply Hnot in Hin.
Qed.

Lemma categories_NoDup : NoDup categories.
Proof. apply (bool_decide_unpack _). vm_compute. exact I. Qed.


Lemma int_digits_all_digits (s : string) (acc : N) :
  all_digits s = true -> int_digits acc s = Some (digits_value acc s).
Proof.
  revert acc. induction s as [|c s IH]; intros acc; [reflexivity|].
  cbn [all_digits int_digits digits_value]. intros [Hc Hs]%andb_true_iff.
  rewrite Hc. now apply IH.
Qed.

Lemma digit_not_space_or_sign (c : ascii) :
  is_digit c = true ->
  is_space c = false /\ ascii_eqb c "-" = false /\ ascii_eqb c "+" = false.
Proof. destruct c as [[] [] [] [] [] [] [] []]; vm_compute; repeat split; congruence. Qed.

(** [int] on a non-empty text of digits is the number they write. *)
Lemma py_int_digits (s : string) :
  s <> "" -> all_digits s = true -> py_int s = Ok (Z.of_N (digits_value 0%N s)).
Proof.
  destruct s as [|c s]; [congruence|]. intros _.
  cbn [all_digits]. intros [Hc Hs]%andb_true_iff.
  destruct (digit_not_space_or_sign c Hc) as (Hspace & Hminus & Hplus).
  unfold py_int. cbn [skip_spaces]. rewrite Hspace, Hminus, Hplus.
  cbn [int_unsigned]. rewrite Hc, (int_digits_all_digits s _ Hs). reflexivity.
Qed.


Lemma digit_not_hyphen (c : ascii) : is_digit c = true -> ascii_eqb c "-" = false.
Proof. destruct c as [[] [] [] [] [] [] [] []]; vm_compute; congruence. Qed.

Lemma split_digits (s : string) : all_digits s = true -> split "-" s = [s].
Proof.
  induction s as [|c s IH]; [reflexivity|].
  cbn [all_digits split]. intros [Hc Hs]%andb_true_iff.
  now rewrite (digit_not_hyphen c Hc), (IH Hs).
Qed.

Lemma split_digits_hyphen (y m : string) :
  all_digits y = true -> all_digits m = true -> split "-" (y +:+ "-" +:+ m) = [y; m].
Proof.
  intros Hy Hm. induction y as [|c y IH].
  - change (split "-" ("" +:+ "-" +:+ m)) with ("" :: split "-" m).
    now rewrite (split_digits m Hm).
  - cbn [all_digits] in Hy. apply andb_true_iff in Hy as [Hc Hy].
    change (String c y +:+ "-" +:+ m) with (String c (y +:+ "-" +:+ m)).
    cbn [split]. now rewrite (digit_not_hyphen c Hc), (IH Hy).
Qed.











Lemma round_half_even_spec (n d : Z) :
  0 <= n -> 0 < d ->
  0 <= round_half_even n d /\
  2 * Z.abs (n - round_half_even n d * d) <= d /\
  (2 * Z.abs (n - round_half_even n d * d) = d -> Z.even (round_half_even n d) = true).
Proof.
  intros Hn Hd. unfold round_half_even.
  pose proof (Z.div_mod n d ltac:(lia)) as Hdiv.
  pose proof (Z.mod_pos_bound n d Hd) as Hmod.
  pose proof (Z.div_pos n d Hn Hd) as Hq.
  set (q := n / d) in *. set (r := n mod d) in *.
  assert (Hr : n - q * d = r) by lia.
  assert (Hr' : n - (q + 1) * d = r - d) by lia.
  destruct (Z.ltb_spec (2 * r) d) as [Hlt|Hge].
  - rewrite Hr. split; [lia|]. split; lia.
  - destruct (Z.ltb_spec d (2 * r)) as [Hgt|Hle].
    + rewrite Hr'. split; [lia|]. split; lia.
    + destruct (Z.even q) eqn:Heven.
      * rewrite Hr. split; [lia|]. split; [lia|]. intros _. exact Heven.
      * rewrite Hr'. split; [lia|]. split; [lia|]. intros _.
        rewrite Z.even_add, Heven. reflexivity.
Qed.

(** The format [{x:.1f}] rounds to one decimal. *)
Lemma format_1f_one_decimal (x : float) : one_decimal x (format_1f x).
Proof.
  unfold one_decimal, format_1f.
  destruct (Prim2SF x) as [s|s| |s m e]; try reflexivity.
  destruct (Z.leb_spec 0 e) as [He|He].
  - exists (10 * Zpos m * 2 ^ e).
    pose proof (Z.pow_nonneg 2 e ltac:(lia)) as Hpow.
    split; [lia|]. split; [reflexivity|]. cbv zeta.
    rewrite (Z.max_l 0 (- e)) by lia. rewrite (Z.max_r 0 e) by lia.
    change (2 ^ 0) with 1. rewrite Z.mul_1_r, Z.sub_diag. cbn [Z.abs Z.mul].
    split; [lia|]. intros H. discriminate H.
  - exists (round_half_even (10 * Zpos m) (2 ^ (- e))).
    destruct (round_half_even_spec (10 * Zpos m) (2 ^ (- e))) as (H0 & H1 & H2);
      [lia|apply Z.pow_pos_nonneg; lia|].
    split; [exact H0|]. split; [reflexivity|]. cbv zeta.
    rewrite (Z.max_r 0 (- e)) by lia. rewrite (Z.max_l 0 e) by lia.
    change (2 ^ 0) with 1. rewrite Z.mul_1_r. split; assumption.
Qed.

Lemma compared_as_text (lines : list (string * change)) (cat : string)
    (current previous : float) :
  compared lines cat current previous -> compared_text lines cat current previous.
Proof.
  intros Hc. split; [exact Hc|]. destruct Hc as [_ Hval]. intros chg Hin.
  destruct (Hval chg Hin) as [Hzero Hpct]. split.
  - intros Hp. rewrite (Hzero Hp). reflexivity.
  - intros Hp. rewrite (Hpct Hp).
    exists (format_1f (delta_percent current previous)).
    split; [apply format_1f_one_decimal|reflexivity].
Qed.

(** The monthly report for a key that has a previous period. *)
Lemma monthly_report_with_prev (h : Host.host) (L : ledger) (month_key prev : string) :
  prev_month month_key = Ok prev -> month_reported h L month_key prev.
Proof.
  intros Hprev. unfold month_reported. split; [exact Hprev|].
  unfold Host.generate_monthly_report, drawing_failure, Host.font_found, Host.pie_of.
  destruct (get_monthly_summary L month_key) as [category_totals total].
  destruct (get_monthly_summary L prev) as [prev_totals prev_total] eqn:Hsum.
  cbn [fst snd].
  destruct (comparison_Ok category_totals prev_totals categories categories_NoDup)
    as (lines & Hcmp & _ & Hlines).
  split.
  - intros e.
    destruct (Host.get_font_path h) as [p|e0];
      [rewrite bind_Ok|rewrite bind_Raise; intros [= <-]; now left].
    destruct (Host.font_properties h p) as [[]|e1] eqn:Hprops;
      [rewrite bind_Ok
      |rewrite bind_Raise; intros [= <-]; right; exists p; split; [reflexivity|now left]].
    destruct (is_zero total); [discriminate|].
    destruct (Host.pie_chart h p month_key _) as [[]|e2] eqn:Hpie;
      [rewrite bind_Ok
      |rewrite bind_Raise; intros [= <-]; right; exists p; split; [reflexivity|now right]].
    rewrite Hprev, bind_Ok, Hsum, Hcmp, bind_Ok. discriminate.
  - intros p [Hfont Hprops]. rewrite Hfont, bind_Ok, Hprops, bind_Ok. split.
    + intros ->. reflexivity.
    + intros -> Hpie. rewrite Hpie, bind_Ok, Hprev, bind_Ok, Hsum, Hcmp, bind_Ok.
      exists lines. split; [reflexivity|].
      intros cat Hcat. apply compared_as_text. exact (Hlines cat Hcat).
Qed.



Example february_report :
  generate_monthly_report two_months "2024-02" =
    MonthlyReport 155 [("吃饭", 150%float); ("交通", 5%float)]
      [("吃饭", Percent 50); ("交通", NoPriorData)] /\
  map printed_line [("吃饭", Percent 50); ("交通", NoPriorData)] =
    ["吃饭: 50.0%"; "交通: 无上月数据"] /\
  map format_1f [0.25; 0.75; 99.96875; -12.5; -0.03125]%float =
    ["0.2"; "0.8"; "100.0"; "-12.5"; "-0.0"].
Proof. vm_compute. repeat split. Qed.

(** ** Persistence *)

Lemma month_data_absent (L : ledger) (month_key : string) :
  L !! month_key = None -> month_data L month_key = ∅.
Proof. intros H. unfold month_data. now rewrite H. Qed.

Lemma month_data_present (L : ledger) (month_key : string) cats :
  L !! month_key = Some cats -> month_data L month_key = cats.
Proof. intros H. unfold month_data. now rewrite H. Qed.

Lemma ledger_extend_no_vacant (L : ledger) month_key cat more :
  no_vacant_period L -> no_vacant_period (ledger_extend L month_key cat more).
Proof.
  intros HL m cats. unfold ledger_extend.
  destruct (decide (month_key = m)) as [->|Hne].
  - rewrite lookup_insert_eq. intros [= <-]. apply insert_non_empty.
  - rewrite lookup_insert_ne by done. apply HL.
Qed.

Lemma load_categories_cons month cat more cats (L : ledger) :
  load_categories month ((cat, more) :: cats) L =
    load_categories month cats (ledger_extend L month cat more).
Proof. reflexivity. Qed.

Lemma load_document_cons month cats (doc : document) (L : ledger) :
  load_document ((month, cats) :: doc) L =
    load_document doc (load_categories month cats L).
Proof. reflexivity. Qed.

(** Loading the categories of one period into a ledger that has the period,
    when none of the categories is there yet. *)
Lemma load_categories_present (month : string) (cats : list (string * list expense))
    (L : ledger) (present : gmap string (list expense)) :
  NoDup cats.*1 ->
  L !! month = Some present ->
  (forall cat, cat ∈ cats.*1 -> present !! cat = None) ->
  load_categories month cats L = <[month := list_to_map cats ∪ present]> L.
Proof.
  revert L present. induction cats as [|[cat more] cats IH]; intros L present Hnd HL Hfresh.
  - cbn. rewrite (left_id_L ∅ (∪)). symmetry. now apply insert_id.
  - rewrite load_categories_cons.
    cbn [fmap list_fmap fst] in Hnd. apply NoDup_cons in Hnd as [Hcat Hnd].
    assert (Hstep : ledger_extend L month cat more = <[month := <[cat := more]> present]> L).
    { unfold ledger_extend, records. rewrite (month_data_present _ _ _ HL).
      rewrite (Hfresh cat) by left. reflexivity. }
    rewrite Hstep.
    rewrite (IH _ (<[cat := more]> present)); [| exact Hnd | apply lookup_insert_eq |].
    + rewrite insert_insert_eq. f_equal. cbn [list_to_map foldr uncurry fst snd].
      rewrite <- insert_union_l. symmetry. apply insert_union_r.
      now apply not_elem_of_list_to_map_1.
    + intros cat' Hin. rewrite lookup_insert_ne by (intros ->; contradiction).
      apply Hfresh. now right.
Qed.

(** Loading a saved period into a ledger that does not have it. *)
Lemma load_categories_absent (month : string) (cats : gmap string (list expense))
    (L : ledger) :
  cats <> ∅ ->
  L !! month = None ->
  load_categories month (map_to_list cats) L = <[month := cats]> L.
Proof.
  intros Hne HL.
  pose proof (NoDup_fst_map_to_list cats) as Hnd.
  pose proof (list_to_map_to_list cats) as Hback.
  destruct (map_to_list cats) as [|[cat more] rest] eqn:Hlist.
  - apply map_to_list_empty_iff in Hlist. contradiction.
  - rewrite load_categories_cons.
    cbn [fmap list_fmap fst] in Hnd. apply NoDup_cons in Hnd as [Hcat Hnd].
    assert (Hstep : ledger_extend L month cat more = <[month := {[cat := more]}]> L).
    { unfold ledger_extend, records. rewrite (month_data_absent _ _ HL).
      rewrite lookup_empty. reflexivity. }
    rewrite Hstep.
    rewrite (load_categories_present month rest _ {[cat := more]});
      [| exact Hnd | apply lookup_insert_eq |].
    + rewrite insert_insert_eq. f_equal. rewrite <- Hback.
      cbn [list_to_map foldr uncurry fst snd]. symmetry.
      apply insert_union_singleton_r. now apply not_elem_of_list_to_map_1.
    + intros cat' Hin. apply lookup_singleton_ne. intros ->. contradiction.
Qed.

(** Loading saved periods, none of them vacant or in the ledger yet, puts
    them all in. *)
Lemma load_document_fresh (periods : list (string * gmap string (list expense)))
    (L : ledger) :
  NoDup periods.*1 ->
  (forall month cats, (month, cats) ∈ periods -> cats <> ∅ /\ L !! month = None) ->
  load_document (map (fun '(month, cats) => (month, map_to_list cats)) periods) L =
    list_to_map periods ∪ L.
Proof.
  revert L. induction periods as [|[month cats] periods IH]; intros L Hnd Hfresh.
  - cbn. now rewrite (left_id_L ∅ (∪)).
  - cbn [map]. rewrite load_document_cons.
    cbn [fmap list_fmap fst] in Hnd. apply NoDup_cons in Hnd as [Hmonth Hnd].
    destruct (Hfresh month cats) as [Hne HL]; [left|].
    rewrite (load_categories_absent month cats L Hne HL).
    rewrite IH; [| exact Hnd |].
    + cbn [list_to_map foldr uncurry fst snd].
      rewrite <- insert_union_l. symmetry. apply insert_union_r.
      now apply not_elem_of_list_to_map_1.
    + intros month' cats' Hin. destruct (Hfresh month' cats') as [Hne' HL']; [now right|].
      split; [exact Hne'|]. rewrite lookup_insert_ne; [exact HL'|].
      intros ->. apply Hmonth. apply list_elem_of_fmap. exists (month', cats'). done.
Qed.

(** [json.load] on objects whose keys are distinct, and in general. *)
Lemma dict_set_fresh {A : Type} (d : list (string * A)) (k : string) (v : A) :
  k ∉ d.*1 -> dict_set d k v = d ++ [(k, v)].
Proof.
  induction d as [|[k' v'] d IH]; intros Hk; [reflexivity|].
  cbn [dict_set]. cbn [fmap list_fmap fst] in Hk.
  apply not_elem_of_cons in Hk as [Hne Hk].
  destruct (String.eqb_spec k' k) as [->|_]; [contradiction|].
  now rewrite (IH Hk).
Qed.

Lemma dict_of_members_acc {A : Type} (members acc : list (string * A)) :
  NoDup (acc ++ members).*1 ->
  fold_left (fun d '(k, v) => dict_set d k v) members acc = acc ++ members.
Proof.
  revert acc. induction members as [|[k v] members IH]; intros acc Hnd.
  - now rewrite app_nil_r.
  - cbn [fold_left]. rewrite dict_set_fresh.
    + rewrite IH; [now rewrite <- app_assoc|]. now rewrite <- app_assoc.
    + rewrite fmap_app in Hnd. apply NoDup_app in Hnd as (_ & Hdisj & _).
      intros Hin. apply (Hdisj k Hin). left.
Qed.

Lemma dict_of_members_NoDup {A : Type} (members : list (string * A)) :
  NoDup members.*1 -> dict_of_members members = members.
Proof. intros Hnd. unfold dict_of_members. now rewrite dict_of_members_acc. Qed.

Lemma json_load_NoDup (doc : document) :
  NoDup doc.*1 ->
  (forall month cats, (month, cats) ∈ doc -> NoDup cats.*1) ->
  json_load doc = doc.
Proof.
  intros Hnd Hcats. unfold json_load.
  assert (Hmap : map (fun '(month, cats) => (month, dict_of_members cats)) doc = doc).
  { clear Hnd. induction doc as [|[month cats] doc IH]; [reflexivity|].
    cbn [map]. rewrite (dict_of_members_NoDup cats) by (apply (Hcats month); left).
    rewrite IH; [reflexivity|]. intros m c Hin. apply (Hcats m). now right. }
  rewrite Hmap. now apply dict_of_members_NoDup.
Qed.

Lemma json_load_saved (L : ledger) :
  json_load (map (fun '(month, cats) => (month, map_to_list cats)) (map_to_list L)) =
    map (fun '(month, cats) => (month, map_to_list cats)) (map_to_list L).
Proof.
  apply json_load_NoDup.
  - rewrite <- list_fmap_compose.
    erewrite list_fmap_ext; [apply (NoDup_fst_map_to_list L)|].
    now intros ? [? ?].
  - intros month cats Hin.
    apply list_elem_of_fmap in Hin as ([m cs] & [= -> ->] & _).
    apply NoDup_fst_map_to_list.
Qed.

Lemma dict_set_elem {A : Type} (d : list (string * A)) (k : string) (v : A) x :
  x ∈ dict_set d k v -> x ∈ d \/ x = (k, v).
Proof.
  induction d as [|[k' v'] d IH]; cbn [dict_set].
  - intros ->%list_elem_of_singleton. now right.
  - destruct (String.eqb_spec k' k) as [->|_].
    + intros [-> | Hin]%elem_of_cons; [now right|left; now right].
    + intros [-> | Hin]%elem_of_cons; [left; left|].
      destruct (IH Hin) as [H|H]; [left; now right|now right].
Qed.

Lemma dict_of_members_elem {A : Type} (members : list (string * A)) x :
  x ∈ dict_of_members members -> x ∈ members.
Proof.
  unfold dict_of_members.
  assert (Hacc : forall acc, x ∈ fold_left (fun d '(k, v) => dict_set d k v) members acc ->
                   x ∈ acc \/ x ∈ members).
  { induction members as [|[k v] members IH]; intros acc; cbn [fold_left]; [now left|].
    intros Hin. destruct (IH _ Hin) as [H|H]; [|right; now right].
    destruct (dict_set_elem _ _ _ _ H) as [H' | ->]; [now left|right; left]. }
  intros Hin. destruct (Hacc [] Hin) as [H|H]; [inversion H|exact H].
Qed.

Lemma json_load_elem (doc : document) month cats cat (es : list expense) :
  (month, cats) ∈ json_load doc -> (cat, es) ∈ cats ->
  exists cats0, (month, cats0) ∈ doc /\ (cat, es) ∈ cats0.
Proof.
  intros Hin Hcat. apply dict_of_members_elem in Hin.
  apply list_elem_of_fmap in Hin as ([m cats0] & [= -> ->] & Hin).
  exists cats0. split; [exact Hin|]. now apply dict_of_members_elem.
Qed.

(** The round trip through the durable file. *)
Lemma load_save_roundtrip (L : ledger) :
  no_vacant_period L -> load_data (save_data L) ∅ = L.
Proof.
  intros Hvac. unfold save_data, load_data. rewrite json_load_saved.
  rewrite load_document_fresh.
  - rewrite (right_id_L ∅ (∪)). apply list_to_map_to_list.
  - apply NoDup_fst_map_to_list.
  - intros month cats Hin. apply elem_of_map_to_list in Hin.
    split; [exact (Hvac month cats Hin)|apply lookup_empty].
Qed.

(** ** The ledger invariant *)

Lemma ledger_inv_records (L : ledger) :
  ledger_inv L <->
  forall month_key cat e, e ∈ records L month_key cat -> filed_under month_key cat e.
Proof.
  split.
  - intros HL month_key cat e. unfold records.
    destruct (L !! month_key) as [cats|] eqn:Hm.
    + rewrite (month_data_present _ _ _ Hm).
      destruct (cats !! cat) as [es|] eqn:Hc; simpl.
      * now apply (HL month_key cats cat es e).
      * intros H. inversion H.
    + rewrite (month_data_absent _ _ Hm), lookup_empty. intros H. inversion H.
  - intros HL month_key cats cat es e Hm Hc He. apply HL.
    unfold records. rewrite (month_data_present _ _ _ Hm), Hc. exact He.
Qed.

Lemma ledger_inv_empty : ledger_inv ∅.
Proof. intros month_key cats cat es e H. now rewrite lookup_empty in H. Qed.

Lemma ledger_extend_inv (L : ledger) month_key cat more :
  ledger_inv L ->
  (forall e, e ∈ more -> filed_under month_key cat e) ->
  ledger_inv (ledger_extend L month_key cat more).
Proof.
  rewrite !ledger_inv_records. intros HL Hmore m c e.
  destruct (decide (m = month_key)) as [->|Hm].
  - destruct (decide (c = cat)) as [->|Hc].
    + rewrite records_extend_eq, elem_of_app. intros [He|He]; [now apply HL|now apply Hmore].
    + rewrite records_extend_ne by done. apply HL.
  - rewrite records_extend_other_month by done. apply HL.
Qed.

Lemma load_categories_inv month cats (L : ledger) :
  ledger_inv L ->
  (forall cat es e, (cat, es) ∈ cats -> e ∈ es -> filed_under month cat e) ->
  ledger_inv (load_categories month cats L).
Proof.
  revert L. induction cats as [|[cat more] cats IH]; intros L HL Hcats; [exact HL|].
  rewrite load_categories_cons. apply IH.
  - apply ledger_extend_inv; [exact HL|]. intros e He. apply (Hcats cat more e); [left|exact He].
  - intros cat' es e Hin. apply Hcats. now right.
Qed.

(** [load_data] keeps the invariant when the file satisfies it. *)
Lemma load_data_inv (f : durable_file) (L : ledger) :
  ledger_inv L -> file_inv f -> ledger_inv (load_data f L).
Proof.
  destruct f as [| |doc]; cbn [load_data file_inv]; [easy|intros; apply ledger_inv_empty|].
  intros HL Hdoc.
  assert (Hloaded : forall month cats cat es e,
            (month, cats) ∈ json_load doc -> (cat, es) ∈ cats -> e ∈ es ->
            filed_under month cat e).
  { intros month cats cat es e Hin Hcat He.
    destruct (json_load_elem doc month cats cat es Hin Hcat) as (cats0 & Hin0 & Hcat0).
    exact (Hdoc month cats0 cat es e Hin0 Hcat0 He). }
  clear Hdoc. revert HL Hloaded. generalize (json_load doc). clear doc. intros doc.
  revert L. induction doc as [|[month cats] doc IH]; intros L HL Hdoc; [exact HL|].
  rewrite load_document_cons. apply IH.
  - apply load_categories_inv; [exact HL|].
    intros cat es e Hin. apply (Hdoc month cats); [left|exact Hin].
  - intros month' cats' cat es e Hin. apply Hdoc. now right.
Qed.

(** [save_data] writes a file that satisfies the invariant of the ledger. *)
Lemma save_data_inv (L : ledger) : ledger_inv L -> file_inv (save_data L).
Proof.
  intros HL month cats cat es e Hin Hcat He.
  apply list_elem_of_fmap in Hin as ([month' cats'] & [= -> ->] & Hin).
  apply elem_of_map_to_list in Hin. apply elem_of_map_to_list in Hcat.
  exact (HL month' cats' cat es e Hin Hcat He).
Qed.

Section Reachability.

Variable str_lower : string -> string.

Lemma add_expense_inv (st : tracker) date_str description amount category :
  ledger_inv (expenses st) ->
  ledger_inv (expenses (fst (add_expense str_lower st date_str description amount category))).
Proof.
  intros HL. unfold add_expense.
  destruct (strptime (normalize_date date_str)) as [[[year month] day]|e] eqn:Hdate;
    [|exact HL].
  cbn [fst expenses]. apply ledger_extend_inv; [exact HL|].
  intros e He. apply list_elem_of_singleton in He as ->.
  split; [|reflexivity]. unfold period_of_date. cbn [date]. now rewrite Hdate.
Qed.

Lemma add_expense_tracker_inv (st : tracker) date_str description amount category :
  tracker_inv st ->
  tracker_inv (fst (add_expense str_lower st date_str description amount category)).
Proof.
  intros (HL & Hvac & Hfile). split.
  { now apply add_expense_inv. }
  unfold add_expense.
  destruct (strptime (normalize_date date_str)) as [[[year month] day]|e];
    [|split; [exact Hvac|exact Hfile]].
  cbn [fst expenses file]. split; [|right; reflexivity].
  now apply ledger_extend_no_vacant.
Qed.

Lemma start_tracker_inv (st : tracker) : tracker_inv st -> tracker_inv (start (file st)).
Proof.
  intros (HL & Hvac & [[Hfile Hempty]|Hfile]); unfold start, tracker_inv;
    cbn [expenses file].
  - rewrite Hfile. cbn [load_data]. split; [apply ledger_inv_empty|].
    split; [|left; done]. intros m cats H. now rewrite lookup_empty in H.
  - assert (Hload : load_data (file st) ∅ = expenses st)
      by (rewrite Hfile; now apply load_save_roundtrip).
    rewrite Hload. split; [exact HL|]. split; [exact Hvac|right; exact Hfile].
Qed.

Lemma reachable_tracker_inv (st : tracker) : reachable str_lower st -> tracker_inv st.
Proof.
  induction 1 as [|st st' _ IH Hstep].
  - unfold start, tracker_inv. cbn [expenses file load_data].
    split; [apply ledger_inv_empty|]. split; [|left; done].
    intros m cats H. now rewrite lookup_empty in H.
  - destruct Hstep; [now apply add_expense_tracker_inv|now apply start_tracker_inv].
Qed.

Lemma reachable_from_inv (f : durable_file) (st : tracker) :
  file_inv f -> reachable_from str_lower f st ->
  ledger_inv (expenses st) /\ file_inv (file st).
Proof.
  intros Hf. induction 1 as [|st st' _ [HL Hfile] Hstep].
  - split; [|exact Hf]. cbn [start expenses].
    apply load_data_inv; [apply ledger_inv_empty|exact Hf].
  - destruct Hstep as [st date_str description amount category|st].
    + pose proof (add_expense_inv st date_str description amount category HL) as HL'.
      split; [exact HL'|]. unfold add_expense in *.
      destruct (strptime (normalize_date date_str)) as [[[year month] day]|e];
        [|exact Hfile].
      cbn [fst file expenses] in *. now apply save_data_inv.
    + cbn [start expenses file]. split; [|exact Hfile].
      apply load_data_inv; [apply ledger_inv_empty|exact Hfile].
Qed.

(** C9, as the code has it.  Every record stored in
    [Ledger[period][category]] has a date whose year and month are the
    period and a category field equal to the category key, in every state
    of a tracker whose first session finds no file or a file whose records
    are filed that way: [add_expense] keeps the invariant from any ledger,
    and [load_data] keeps it on the file that [save_data] wrote, as on any
    file that satisfies it.  [load_data] checks nothing, so the condition
    on the file is needed. *)
Theorem ledger_invariant_reachable :
  (forall f st,
     file_inv f -> reachable_from str_lower f st -> ledger_inv (expenses st)) /\
  (forall st, reachable str_lower st -> ledger_inv (expenses st)) /\
  (forall st date_str description amount category,
     ledger_inv (expenses st) ->
     ledger_inv (expenses (fst (add_expense str_lower st date_str description
                                  amount category)))) /\
  (forall L L0 : ledger,
     ledger_inv L -> ledger_inv L0 -> ledger_inv (load_data (save_data L) L0)) /\
  (forall (f : durable_file) (L0 : ledger),
     file_inv f -> ledger_inv L0 -> ledger_inv (load_data f L0)).
Proof.
  split; [|split; [|split; [|split]]].
  - intros f st Hf Hst. now destruct (reachable_from_inv f st Hf Hst).
  - intros st Hst. now destruct (reachable_tracker_inv st Hst).
  - intros st date_str description amount category. apply add_expense_inv.
  - intros L L0 HL HL0. apply load_data_inv; [exact HL0|now apply save_data_inv].
  - intros f L0 Hf HL0. now apply load_data_inv.
Qed.

End Reachability.

Lemma after_scenario_a_reachable : reachable ascii_lower after_scenario_a.
Proof.
  unfold after_scenario_a. eapply reachable_step; [apply reachable_start|apply step_add].
Qed.

Lemma ledger_invariant_reachable_witness :
  ledger_inv (expenses (start (save_data (expenses after_scenario_a)))).
Proof.
  apply (proj1 (ledger_invariant_reachable ascii_lower)
           (save_data (expenses after_scenario_a))).
  - apply save_data_inv.
    exact (proj1 (reachable_tracker_inv ascii_lower _ after_scenario_a_reachable)).
  - apply reachable_from_start.
Defined.

(** C9, as the specification has it, fails: the tracker that starts on a
    file with a misfiled record holds that record under the period 2024-02
    and the category "吃饭", although its date lies in 2023-01 and its
    category field is "交通". *)
Theorem misfiled_record_is_loaded :
  reachable_from ascii_lower misfiled_file (start misfiled_file) /\
  ledger_inv ∅ /\
  records (expenses (start misfiled_file)) "2024-02" "吃饭" =
    [Expense "2023/01/05" "车票" 12 "交通"] /\
  period_of_date "2023/01/05" = Some "2023-01" /\
  ~ ledger_inv (expenses (start misfiled_file)).
Proof.
  split; [apply reachable_from_start|]. split; [apply ledger_inv_empty|].
  split; [vm_compute; reflexivity|]. split; [vm_compute; reflexivity|].
  intros Hinv.
  destruct (proj1 (ledger_inv_records _) Hinv "2024-02" "吃饭"
              (Expense "2023/01/05" "车票" 12 "交通")) as [_ Hcat].
  - replace (records (expenses (start misfiled_file)) "2024-02" "吃饭")
      with [Expense "2023/01/05" "车票" 12 "交通"] by (vm_compute; reflexivity).
    apply list_elem_of_here.
  - discriminate Hcat.
Qed.

(** The ledger that [load_data] builds has no vacant period. *)
Lemma load_data_no_vacant (f : durable_file) (L : ledger) :
  no_vacant_period L -> no_vacant_period (load_data f L).
Proof.
  destruct f as [| |doc]; cbn [load_data]; [easy| |].
  { intros _ m cats H. now rewrite lookup_empty in H. }
  generalize (json_load doc). clear doc. intros doc.
  revert L. induction doc as [|[month cats] doc IH]; intros L HL; [exact HL|].
  rewrite load_document_cons. apply IH. clear IH.
  revert L HL. induction cats as [|[cat more] cats IH]; intros L HL; [exact HL|].
  rewrite load_categories_cons. apply IH. now apply ledger_extend_no_vacant.
Qed.

(** C8, as the code has it.  Persistence round-trips exactly for the
    ledgers in which every period holds a category, and for no other: for
    such a ledger [L], saving it, loading the saved file into an empty
    ledger and saving again gives back [L] and the same file, that is the
    same period keys, category keys and record lists. *)
Theorem persistence_roundtrip (L : ledger) :
  (no_vacant_period L <-> load_data (save_data L) ∅ = L) /\
  (no_vacant_period L ->
   save_data (load_data (save_data L) ∅) = save_data L).
Proof.
  split.
  - split; [apply load_save_roundtrip|]. intros <-.
    apply load_data_no_vacant. intros m cats H. now rewrite lookup_empty in H.
  - intros Hvac. now rewrite (load_save_roundtrip _ Hvac).
Qed.

Lemma persistence_roundtrip_witness :
  load_data (save_data (expenses after_scenario_a)) ∅ = expenses after_scenario_a /\
  save_data (load_data (save_data (expenses after_scenario_a)) ∅) =
    save_data (expenses after_scenario_a).
Proof.
  pose proof (proj1 (proj2 (reachable_tracker_inv ascii_lower _
                              after_scenario_a_reachable))) as Hvac.
  split.
  - exact (proj1 (proj1 (persistence_roundtrip (expenses after_scenario_a))) Hvac).
  - exact (proj2 (persistence_roundtrip (expenses after_scenario_a)) Hvac).
Defined.

(** C8, as the specification has it, fails: a ledger with a vacant period
    is not empty, its file names the period, and loading the file into an
    empty ledger gives the empty ledger, whose file names no period. *)
Theorem vacant_period_is_not_restored :
  vacant_ledger !! "2024-02" = Some ∅ /\
  save_data vacant_ledger = Saved [("2024-02", [])] /\
  load_data (save_data vacant_ledger) ∅ !! "2024-02" = None /\
  save_data (load_data (save_data vacant_ledger) ∅) = Saved [] /\
  load_data (save_data vacant_ledger) ∅ <> vacant_ledger.
Proof.
  assert (Hload : load_data (save_data vacant_ledger) ∅ = ∅)
    by (vm_compute; reflexivity).
  split; [apply lookup_singleton_eq|]. split; [vm_compute; reflexivity|].
  rewrite Hload. split; [apply lookup_empty|]. split; [vm_compute; reflexivity|].
  intros H. apply (f_equal (fun L : ledger => L !! "2024-02")) in H.
  rewrite lookup_empty in H. unfold vacant_ledger in H.
  rewrite lookup_singleton_eq in H. discriminate H.
Qed.

(** ** Keywords that lowering keeps, and the century *)

Lemma scan_keywords_fixed (str_lower : string -> string) cat keywords text :
  (forall keyword, keyword ∈ keywords -> str_lower keyword = keyword) ->
  scan_keywords str_lower cat keywords text = scan_keywords (fun s => s) cat keywords text.
Proof.
  induction keywords as [|kw rest IH]; intros Hfix; [reflexivity|].
  cbn [scan_keywords]. rewrite (Hfix kw (list_elem_of_here _ _)).
  rewrite IH; [reflexivity|].
  intros keyword Hin. apply Hfix. now right.
Qed.

Lemma scan_categories_fixed (str_lower : string -> string) table text :
  keywords_fixed str_lower table ->
  scan_categories str_lower table text = scan_categories (fun s => s) table text.
Proof.
  induction table as [|[cat keywords] rest IH]; intros Hfix; [reflexivity|].
  cbn [scan_categories].
  rewrite (scan_keywords_fixed str_lower cat keywords text)
    by (intros keyword Hin; apply (Hfix cat keywords); [left|exact Hin]).
  rewrite IH; [reflexivity|].
  intros cat' keywords' keyword Hin Hkw.
  apply (Hfix cat' keywords'); [right; exact Hin|exact Hkw].
Qed.

Lemma normalize_date_two_digits (date_str : string) :
  py_len (first_field "/" date_str) = 2%nat ->
  normalize_date date_str = "20" +:+ date_str /\
  normalize_date ("20" +:+ date_str) = "20" +:+ date_str.
Proof.
  intros Hlen. unfold normalize_date. rewrite Hlen. split; [reflexivity|].
  change (first_field "/" ("20" +:+ date_str)) with ("20" +:+ first_field "/" date_str).
  change (py_len ("20" +:+ first_field "/" date_str))
    with (S (S (py_len (first_field "/" date_str)))).
  rewrite Hlen. reflexivity.
Qed.

(** ** The entry parser on text after the amount *)

(** C6.  The pattern is matched with [re.match], which anchors it at the
    start of the line only: a line that goes on after a well-formed entry is
    accepted, and what follows the amount is dropped.  A description takes
    all hyphens but the last one that a digit follows. *)
Theorem parse_input_trailing_text :
  parse_input "2024/02/14，午餐-25元" = Some ("2024/02/14", "午餐", 25%float, None) /\
  parse_input "2024/02/14，午餐-25.5.5" = Some ("2024/02/14", "午餐", 25.5%float, None) /\
  parse_input "2024/02/14，a-1-b" = Some ("2024/02/14", "a", 1%float, None).
Proof. vm_compute. repeat split. Qed.

(** Lines of the documented form are parsed, lines off it in their first
    part are rejected. *)
Example parse_input_examples :
  parse_input "2024/02/14，黄焖鸡米饭-25" = Some ("2024/02/14", "黄焖鸡米饭", 25%float, None) /\
  parse_input "2024/02/14，a-b-12.5" = Some ("2024/02/14", "a-b", 12.5%float, None) /\
  parse_input "20245/02/14，a-1" = None /\
  parse_input "2024/02/14,a-1" = None /\
  parse_input "2024/02/14，-1" = None /\
  parse_input "2024/02/14，午餐-" = None.
Proof. vm_compute. repeat split. Qed.

(** Scenario A of the specification, and a text that two categories mention. *)
Example scenario_a :
  enter ascii_lower (start NoFile) "2024/02/14，黄焖鸡米饭-25" = after_scenario_a /\
  records (expenses after_scenario_a) "2024-02" "吃饭" =
    [Expense "2024/02/14" "黄焖鸡米饭" 25 "吃饭"] /\
  categorize_description ascii_lower "打车去吃火锅" = "吃饭" /\
  categorize_description ascii_lower "KTV" = "娱乐" /\
  categorize_description ascii_lower "房租" = "其他".
Proof. vm_compute. repeat split. Qed.

(** * Further properties of the code *)

(** ** Calendar dates and the effect of [add_expense] *)

Lemma digit_value_bound (c : ascii) : is_digit c = true -> (digit_value c <= 9)%N.
Proof.
  unfold is_digit, digit_value. intros [_ H]%andb_true_iff.
  apply N.leb_le in H. lia.
Qed.

Lemma digit_in_bound (lo hi : N) (c : ascii) :
  digit_in lo hi c = true -> (lo <= digit_value c <= hi)%N.
Proof.
  unfold digit_in. intros [_ [H1 H2]%andb_true_iff]%andb_true_iff.
  apply N.leb_le in H1, H2. lia.
Qed.

Lemma take_year_bound (s : string) (year : Z) (rest : string) :
  take_year s = Some (year, rest) -> 0 <= year <= 9999.
Proof.
  unfold take_year. destruct s as [|a [|b [|c [|d s]]]]; try discriminate.
  destruct (is_digit a) eqn:Ha; [|discriminate].
  destruct (is_digit b) eqn:Hb; [|discriminate].
  destruct (is_digit c) eqn:Hc; [|discriminate].
  destruct (is_digit d) eqn:Hd; [|discriminate].
  cbn [andb]. intros [= <- _]. cbn [digits_value].
  apply digit_value_bound in Ha, Hb, Hc, Hd. lia.
Qed.

Lemma take_month_bound (s : string) (month : Z) (rest : string) :
  take_month s = Some (month, rest) -> 1 <= month <= 12.
Proof.
  unfold take_month. destruct s as [|a [|b s]]; try discriminate.
  - destruct (digit_in 1 9 a) eqn:Ha; [|discriminate].
    intros [= <- _]. apply digit_in_bound in Ha. lia.
  - destruct (ascii_eqb a "1" && digit_in 0 2 b) eqn:H1.
    { apply andb_true_iff in H1 as [_ Hb]. intros [= <- _].
      apply digit_in_bound in Hb. lia. }
    destruct (ascii_eqb a "0" && digit_in 1 9 b) eqn:H2.
    { apply andb_true_iff in H2 as [_ Hb]. intros [= <- _].
      apply digit_in_bound in Hb. lia. }
    destruct (digit_in 1 9 a) eqn:Ha; [|discriminate].
    intros [= <- _]. apply digit_in_bound in Ha. lia.
Qed.

Lemma take_day_bound (s : string) (day : Z) (rest : string) :
  take_day s = Some (day, rest) -> 1 <= day.
Proof.
  unfold take_day. destruct s as [|a [|b s]]; try discriminate.
  - destruct (digit_in 1 9 a) eqn:Ha; [|discriminate].
    intros [= <- _]. apply digit_in_bound in Ha. lia.
  - destruct (ascii_eqb a "3" && digit_in 0 1 b) eqn:H1.
    { intros [= <- _]. lia. }
    destruct (digit_in 1 2 a && is_digit b) eqn:H2.
    { apply andb_true_iff in H2 as [Ha _]. intros [= <- _].
      apply digit_in_bound in Ha. lia. }
    destruct (ascii_eqb a "0" && digit_in 1 9 b) eqn:H3.
    { apply andb_true_iff in H3 as [_ Hb]. intros [= <- _].
      apply digit_in_bound in Hb. lia. }
    destruct (digit_in 1 9 a) eqn:Ha.
    { intros [= <- _]. apply digit_in_bound in Ha. lia. }
    destruct (ascii_eqb a " " && digit_in 1 9 b) eqn:H5; [|discriminate].
    apply andb_true_iff in H5 as [_ Hb]. intros [= <- _].
    apply digit_in_bound in Hb. lia.
Qed.

(** What [strptime] returns is a day of the calendar. *)
Lemma strptime_calendar_day (date_str : string) (year month day : Z) :
  strptime date_str = Ok (year, month, day) -> calendar_day year month day.
Proof.
  unfold strptime.
  destruct (take_year date_str) as [[y [|slash1 s1]]|] eqn:Hy; try discriminate.
  destruct (ascii_eqb slash1 "/"); [|discriminate].
  destruct (take_month s1) as [[m [|slash2 s2]]|] eqn:Hm; try discriminate.
  destruct (ascii_eqb slash2 "/"); [|discriminate].
  destruct (take_day s2) as [[d [|? ?]]|] eqn:Hd; try discriminate.
  destruct ((1 <=? y) && (d <=? days_in_month y m)) eqn:Hvalid; [|discriminate].
  intros [= <- <- <-]. apply andb_true_iff in Hvalid as [H1 H2].
  apply Z.leb_le in H1, H2.
  apply take_year_bound in Hy. apply take_month_bound in Hm. apply take_day_bound in Hd.
  unfold calendar_day. lia.
Qed.

Lemma add_expense_failure (str_lower : string -> string) (st : tracker)
    (date_str description : string) (amount : float) (category : option string)
    (e : py_exn) :
  strptime (normalize_date date_str) = Raise e ->
  add_expense str_lower st date_str description amount category = (st, false).
Proof. intros H. unfold add_expense. now rewrite H. Qed.

Lemma add_expense_success (str_lower : string -> string) (st : tracker)
    (date_str description : string) (amount : float) (category : option string)
    (year month day : Z) :
  strptime (normalize_date date_str) = Ok (year, month, day) ->
  added str_lower st date_str description amount category year month.
Proof.
  intros H. unfold added, add_expense, filed_category. rewrite H.
  cbn [fst snd expenses file]. split; [reflexivity|]. split; [|split; [|reflexivity]].
  - unfold ledger_append. apply records_extend_eq.
  - intros key' cat' Hne. unfold ledger_append.
    destruct (decide (key' = month_key_of year month)) as [->|Hkey].
    + apply records_extend_ne. intros ->. now apply Hne.
    + now apply records_extend_other_month.
Qed.

(** X1.  On a date of ASCII characters, [add_expense] returns [False] and
    leaves ledger and file as they were exactly when [strptime] rejects the
    normalised date; otherwise the date is a day of the calendar (years 1 to
    9999), the call returns [True], the new record is the last of the list
    of its period and category, every other list is unchanged, and the file
    holds the new ledger. *)
Theorem add_expense_effect (str_lower : string -> string) (st : tracker)
    (date_str description : string) (amount : float) (category : option string) :
  ascii_text date_str = true ->
  (forall e, strptime (normalize_date date_str) = Raise e ->
     add_expense str_lower st date_str description amount category = (st, false)) /\
  (forall year month day,
     strptime (normalize_date date_str) = Ok (year, month, day) ->
     calendar_day year month day /\
     added str_lower st date_str description amount category year month).
Proof.
  intros _. split.
  - intros e. apply add_expense_failure.
  - intros year month day H. split.
    + exact (strptime_calendar_day _ _ _ _ H).
    + exact (add_expense_success _ _ _ _ _ _ _ _ _ H).
Qed.

Lemma add_expense_effect_witness :
  add_expense ascii_lower (start NoFile) "2024/02/30" "午餐" 25 None =
    (start NoFile, false) /\
  calendar_day 2024 2 14 /\
  added ascii_lower (start NoFile) "24/2/14" "午餐" 25 None 2024 2.
Proof.
  split.
  - apply (proj1 (add_expense_effect ascii_lower (start NoFile) "2024/02/30" "午餐" 25 None
                    eq_refl) ValueError).
    vm_compute. reflexivity.
  - apply (proj2 (add_expense_effect ascii_lower (start NoFile) "24/2/14" "午餐" 25 None
                    eq_refl) 2024 2 14).
    vm_compute. reflexivity.
Defined.

Lemma digit_plain (c : ascii) :
  is_digit c = true -> ascii_eqb c "/" = false /\ is_continuation c = false.
Proof. destruct c as [[] [] [] [] [] [] [] []]; vm_compute; split; congruence. Qed.

Lemma strptime_year_field (date_str : string) (year month day : Z) :
  strptime date_str = Ok (year, month, day) ->
  exists a b c d rest,
    date_str = String a (String b (String c (String d (String "/" rest)))) /\
    is_digit a = true /\ is_digit b = true /\ is_digit c = true /\ is_digit d = true /\
    year = Z.of_N (digits_value 0 (String a (String b (String c (String d ""))))).
Proof.
  unfold strptime.
  destruct (take_year date_str) as [[y [|slash1 s1]]|] eqn:Hy; try discriminate.
  destruct (ascii_eqb slash1 "/") eqn:Hs; [|discriminate].
  apply Ascii.eqb_eq in Hs as ->.
  destruct (take_month s1) as [[m [|slash2 s2]]|]; try discriminate.
  destruct (ascii_eqb slash2 "/"); [|discriminate].
  destruct (take_day s2) as [[d' [|? ?]]|]; try discriminate.
  destruct ((1 <=? y) && (d' <=? days_in_month y m)); [|discriminate].
  intros [= <- _ _]. unfold take_year in Hy.
  destruct date_str as [|a [|b [|c [|d s]]]]; try discriminate.
  destruct (is_digit a) eqn:Ha; [|discriminate].
  destruct (is_digit b) eqn:Hb; [|discriminate].
  destruct (is_digit c) eqn:Hc; [|discriminate].
  destruct (is_digit d) eqn:Hd; [|discriminate].
  cbn [andb] in Hy. injection Hy as <- ->.
  exists a, b, c, d, s1. repeat split; done.
Qed.

(** X2.  [add_expense] accepts a year of four digits, or of two digits
    which it reads in the century 2000 to 2099; a date whose first field has
    any other number of characters is refused. *)
Theorem add_expense_year_digits (str_lower : string -> string) (st : tracker)
    (date_str description : string) (amount : float) (category : option string) :
  snd (add_expense str_lower st date_str description amount category) = true ->
  exists year month day,
    strptime (normalize_date date_str) = Ok (year, month, day) /\
    ((py_len (first_field "/" date_str) = 4%nat /\ normalize_date date_str = date_str) \/
     (py_len (first_field "/" date_str) = 2%nat /\
      normalize_date date_str = "20" +:+ date_str /\ 2000 <= year <= 2099)).
Proof.
  unfold add_expense.
  destruct (strptime (normalize_date date_str)) as [[[year month] day]|e] eqn:Hdate;
    [intros _|discriminate].
  exists year, month, day. split; [reflexivity|].
  destruct (strptime_year_field _ _ _ _ Hdate)
    as (a & b & c & d & rest & Hs & Ha & Hb & Hc & Hd & Hyear).
  destruct (digit_plain a Ha) as [Ha1 Ha2]. destruct (digit_plain b Hb) as [Hb1 Hb2].
  destruct (digit_plain c Hc) as [Hc1 Hc2]. destruct (digit_plain d Hd) as [Hd1 Hd2].
  unfold normalize_date in *.
  destruct (Nat.eqb (py_len (first_field "/" date_str)) 2) eqn:Hlen.
  - right. apply Nat.eqb_eq in Hlen. split; [exact Hlen|]. split; [reflexivity|].
    change ("20" +:+ date_str) with (String "2" (String "0" date_str)) in Hs.
    injection Hs as <- <- _. subst year. cbn [digits_value].
    apply digit_value_bound in Hc, Hd.
    change (digit_value "2") with 2%N. change (digit_value "0") with 0%N. lia.
  - left. split; [|reflexivity]. subst date_str.
    cbn [first_field py_len]. rewrite Ha1, Hb1, Hc1, Hd1.
    cbn [first_field py_len]. rewrite Ascii.eqb_refl || (unfold ascii_eqb; rewrite Ascii.eqb_refl).
    cbn [py_len]. now rewrite Ha2, Hb2, Hc2, Hd2.
Qed.

Lemma add_expense_year_digits_witness :
  exists year month day,
    strptime (normalize_date "24/02/14") = Ok (year, month, day) /\
    ((py_len (first_field "/" "24/02/14") = 4%nat /\
      normalize_date "24/02/14" = "24/02/14") \/
     (py_len (first_field "/" "24/02/14") = 2%nat /\
      normalize_date "24/02/14" = "20" +:+ "24/02/14" /\ 2000 <= year <= 2099)).
Proof.
  apply (add_expense_year_digits ascii_lower (start NoFile) "24/02/14" "地铁" 5 None).
  vm_compute. reflexivity.
Defined.

(** ** Two-digit years, and scenario B *)

Lemma century_year (date_str : string) (year month day : Z) :
  strptime ("20" +:+ date_str) = Ok (year, month, day) -> 2000 <= year <= 2099.
Proof.
  intros Hdate.
  destruct (strptime_year_field _ _ _ _ Hdate)
    as (a & b & c & d & rest & Hs & Ha & Hb & Hc & Hd & Hyear).
  change ("20" +:+ date_str) with (String "2" (String "0" date_str)) in Hs.
  injection Hs as <- <- _. subst year. cbn [digits_value].
  apply digit_value_bound in Hc, Hd.
  change (digit_value "2") with 2%N. change (digit_value "0") with 0%N. lia.
Qed.

(** C7.  A date of ASCII characters whose year has two digits is completed
    with the century "20" before it is parsed: when the completed text is no date of the
    calendar nothing is stored, and otherwise its year lies in 2000 to 2099
    and the record is stored with the completed date under the period of
    that year and month.  In particular the line "24/02/14，地铁-5" is
    parsed into the date "24/02/14", the description "地铁" and the amount
    5.0, and entering it puts the record with the date 2024/02/14, the
    amount 5.0 and the category "交通", found by the keyword "地铁", at the
    end of the list of the period 2024-02 and the category "交通", leaves
    every other list as it was, and writes the new ledger to the file. *)
Theorem two_digit_year_completed (str_lower : string -> string) :
  lowers_keywords str_lower ->
  str_lower "地铁" = "地铁" ->
  century_completed str_lower.
Proof.
  intros Hlow Hdesc. split; [|split].
  - intros st date_str description amount category _ Hlen.
    destruct (normalize_date_two_digits date_str Hlen) as [Hshort _].
    split; [exact Hshort|]. split.
    + intros e He. apply (add_expense_failure _ _ _ _ _ _ e). now rewrite Hshort.
    + intros year month day Hdate. split; [exact (century_year _ _ _ _ Hdate)|].
      apply (add_expense_success _ _ _ _ _ _ year month day). now rewrite Hshort.
  - vm_compute. reflexivity.
  - intros st.
    assert (Hcat : categorize_description str_lower "地铁" = "交通").
    { unfold categorize_description. rewrite Hdesc.
      rewrite (scan_categories_fixed str_lower category_keywords "地铁"
                 (lowers_keywords_fixed str_lower Hlow)).
      vm_compute. reflexivity. }
    assert (Hdate : strptime (normalize_date "24/02/14") = Ok (2024, 2, 14))
      by (vm_compute; reflexivity).
    pose proof (add_expense_success str_lower st "24/02/14" "地铁" 5 None 2024 2 14 Hdate)
      as Hadd.
    unfold added, filed_category in Hadd. rewrite Hcat in Hadd.
    change (normalize_date "24/02/14") with "2024/02/14" in Hadd.
    replace (month_key_of 2024 2) with "2024-02" in Hadd by (vm_compute; reflexivity).
    assert (Henter : enter str_lower st "24/02/14，地铁-5" =
              fst (add_expense str_lower st "24/02/14" "地铁" 5 None)).
    { unfold enter.
      replace (parse_input "24/02/14，地铁-5")
        with (Some ("24/02/14", "地铁", 5%float, @None string))
        by (vm_compute; reflexivity).
      reflexivity. }
    cbv zeta. rewrite Henter. destruct Hadd as (Hflag & Hlast & Hother & Hfile).
    split; [|split; [exact Hlast|split; [exact Hother|exact Hfile]]].
    rewrite <- Hflag. apply surjective_pairing.
Qed.

Lemma two_digit_year_completed_witness : century_completed ascii_lower.
Proof.
  apply (two_digit_year_completed ascii_lower).
  - exact ascii_lower_keywords.
  - reflexivity.
Defined.

(** ** Loading, restarting, and the totals after an entry *)

Lemma records_load_categories month cats (L : ledger) (month' cat' : string) :
  records (load_categories month cats L) month' cat' =
    records L month' cat' ++
    (if String.eqb month month' then cats_records cats cat' else []).
Proof.
  revert L. induction cats as [|[cat more] cats IH]; intros L.
  - cbn. destruct (String.eqb month month'); now rewrite app_nil_r.
  - rewrite load_categories_cons, IH.
    destruct (String.eqb_spec month month') as [<-|Hm].
    + cbn [cats_records flat_map]. fold (cats_records cats cat').
      destruct (String.eqb_spec cat cat') as [<-|Hc].
      * now rewrite records_extend_eq, <- app_assoc.
      * rewrite records_extend_ne by congruence. reflexivity.
    + rewrite records_extend_other_month by congruence. reflexivity.
Qed.

Lemma records_load_document (doc : document) (L : ledger) (month cat : string) :
  records (load_document doc L) month cat = records L month cat ++ doc_records doc month cat.
Proof.
  revert L. induction doc as [|[m cats] doc IH]; intros L.
  - cbn. now rewrite app_nil_r.
  - rewrite load_document_cons, IH, records_load_categories, <- app_assoc.
    cbn [doc_records flat_map]. fold (doc_records doc month cat).
    reflexivity.
Qed.

Lemma flat_map_absent {V B : Type} (f : V -> list B) (key : string)
    (l : list (string * V)) :
  key ∉ l.*1 ->
  flat_map (fun '(k, v) => if String.eqb k key then f v else []) l = [].
Proof.
  induction l as [|[k v] l IH]; [reflexivity|].
  cbn [fmap list_fmap fst flat_map]. intros Hnot.
  apply not_elem_of_cons in Hnot as [Hne Hnot].
  destruct (String.eqb_spec k key) as [->|_]; [contradiction|]. now apply IH.
Qed.

(** In a list of items with distinct keys, collecting by key finds the
    value of the key. *)
Lemma flat_map_keyed {V B : Type} (f : V -> list B) (key : string)
    (l : list (string * V)) (found : option V) :
  NoDup l.*1 ->
  (forall v, found = Some v <-> (key, v) ∈ l) ->
  flat_map (fun '(k, v) => if String.eqb k key then f v else []) l =
    match found with
    | Some v => f v
    | None => []
    end.
Proof.
  induction l as [|[k v] l IH]; intros Hnd Hlook.
  - destruct found as [v|]; [|reflexivity].
    destruct (Hlook v) as [H _]. specialize (H eq_refl). inversion H.
  - cbn [fmap list_fmap fst] in Hnd. apply NoDup_cons in Hnd as [Hk Hnd].
    cbn [flat_map]. destruct (String.eqb_spec k key) as [->|Hne].
    + rewrite (flat_map_absent f key l Hk), app_nil_r.
      assert (Hv : found = Some v) by (apply Hlook; left). now rewrite Hv.
    + cbn [app]. apply IH; [exact Hnd|].
      intros v'. rewrite Hlook. split.
      * intros Hin. apply elem_of_cons in Hin as [[= ? ?]|Hin]; [congruence|exact Hin].
      * intros Hin. now right.
Qed.

Lemma flat_map_map_to_list {V B : Type} (f : V -> list B) (key : string)
    (M : gmap string V) :
  flat_map (fun '(k, v) => if String.eqb k key then f v else []) (map_to_list M) =
    match M !! key with
    | Some v => f v
    | None => []
    end.
Proof.
  apply flat_map_keyed; [apply NoDup_fst_map_to_list|].
  intros v. symmetry. apply elem_of_map_to_list.
Qed.

Lemma doc_records_saved (L : ledger) (month cat : string) :
  doc_records (map (fun '(m, cats) => (m, map_to_list cats)) (map_to_list L)) month cat =
    records L month cat.
Proof.
  unfold doc_records. rewrite flat_map_concat_map, map_map, <- flat_map_concat_map.
  rewrite (flat_map_ext _ (fun '(m, cats) =>
             if String.eqb m month then cats_records (map_to_list cats) cat else []))
    by (intros [m cats]; reflexivity).
  rewrite (flat_map_map_to_list (fun cats => cats_records (map_to_list cats) cat) month L).
  unfold records. destruct (L !! month) as [cats|] eqn:Hm.
  - rewrite (month_data_present _ _ _ Hm). unfold cats_records.
    rewrite (flat_map_map_to_list (fun es => es) cat cats).
    now destruct (cats !! cat).
  - rewrite (month_data_absent _ _ Hm). now rewrite lookup_empty.
Qed.

Lemma last_value_absent {A : Type} (d : list (string * A)) (k : string) :
  k ∉ d.*1 -> last_value d k = None.
Proof.
  induction d as [|[k' v'] d IH]; [reflexivity|].
  cbn [fmap list_fmap fst last_value]. intros Hk.
  apply not_elem_of_cons in Hk as [Hne Hk]. rewrite (IH Hk).
  destruct (String.eqb_spec k' k) as [->|_]; [contradiction|reflexivity].
Qed.

Lemma dict_set_keys {A : Type} (d : list (string * A)) (k : string) (v : A) :
  NoDup d.*1 ->
  NoDup (dict_set d k v).*1 /\
  forall k', k' ∈ (dict_set d k v).*1 -> k' = k \/ k' ∈ d.*1.
Proof.
  induction d as [|[k0 v0] d IH]; intros Hnd; cbn [dict_set].
  - split; [apply NoDup_singleton|]. intros k' ->%list_elem_of_singleton. now left.
  - cbn [fmap list_fmap fst] in Hnd. apply NoDup_cons in Hnd as [Hk0 Hnd].
    destruct (String.eqb_spec k0 k) as [->|Hne].
    + split; [now apply NoDup_cons|]. intros k' Hin. now right.
    + destruct (IH Hnd) as [Hnd' Hkeys]. split.
      * cbn [fmap list_fmap fst]. apply NoDup_cons. split; [|exact Hnd'].
        intros Hin. destruct (Hkeys k0 Hin) as [H|H]; [congruence|contradiction].
      * cbn [fmap list_fmap fst]. intros k' [-> | Hin]%elem_of_cons.
        -- right. left.
        -- destruct (Hkeys k' Hin) as [H|H]; [now left|right; now right].
Qed.

Lemma last_value_dict_set {A : Type} (d : list (string * A)) (k k' : string) (v : A) :
  NoDup d.*1 ->
  last_value (dict_set d k v) k' = if String.eqb k k' then Some v else last_value d k'.
Proof.
  induction d as [|[k0 v0] d IH]; intros Hnd; cbn [dict_set last_value].
  - now destruct (String.eqb k k').
  - cbn [fmap list_fmap fst] in Hnd. apply NoDup_cons in Hnd as [Hk0 Hnd].
    destruct (String.eqb_spec k0 k) as [->|Hne]; cbn [last_value].
    + destruct (String.eqb_spec k k') as [<-|Hk'].
      * now rewrite (last_value_absent d k Hk0).
      * reflexivity.
    + rewrite (IH Hnd). destruct (String.eqb_spec k k') as [<-|Hk']; [reflexivity|].
      reflexivity.
Qed.

(** The [dict] that [json.load] builds has every key once and, for every
    key, the value of its last member. *)
Lemma dict_of_members_last {A : Type} (members : list (string * A)) :
  NoDup (dict_of_members members).*1 /\
  forall k, last_value (dict_of_members members) k = last_value members k.
Proof.
  unfold dict_of_members.
  assert (Hacc : forall acc : list (string * A),
            NoDup acc.*1 ->
            NoDup (fold_left (fun d '(k, v) => dict_set d k v) members acc).*1 /\
            forall k, last_value (fold_left (fun d '(k, v) => dict_set d k v) members acc) k =
                        match last_value members k with
                        | Some v => Some v
                        | None => last_value acc k
                        end).
  { induction members as [|[k0 v0] members IH]; intros acc Hnd; cbn [fold_left last_value].
    - split; [exact Hnd|reflexivity].
    - destruct (IH (dict_set acc k0 v0) (proj1 (dict_set_keys acc k0 v0 Hnd)))
        as [Hnd' Hlast].
      split; [exact Hnd'|]. intros k. rewrite Hlast, (last_value_dict_set acc k0 k v0 Hnd).
      destruct (last_value members k); [reflexivity|]. now destruct (String.eqb k0 k). }
  destruct (Hacc [] (NoDup_nil_2 : NoDup ([] : list (string * A)).*1)) as [Hnd Hlast].
  split; [exact Hnd|]. intros k. rewrite Hlast. now destruct (last_value members k).
Qed.

Lemma last_value_keyed {A : Type} (d : list (string * A)) (k : string) (v : A) :
  NoDup d.*1 -> last_value d k = Some v <-> (k, v) ∈ d.
Proof.
  induction d as [|[k0 v0] d IH]; intros Hnd; cbn [last_value].
  - split; [discriminate|intros H; inversion H].
  - cbn [fmap list_fmap fst] in Hnd. apply NoDup_cons in Hnd as [Hk0 Hnd].
    destruct (String.eqb_spec k0 k) as [->|Hne].
    + rewrite (last_value_absent d k Hk0). split.
      * intros [= ->]. left.
      * intros [[= ->] | Hin]%elem_of_cons; [reflexivity|].
        exfalso. apply Hk0. apply list_elem_of_fmap. now exists (k, v).
    + rewrite elem_of_cons, <- (IH Hnd).
      destruct (last_value d k) as [later|]; split.
      * intros H. now right.
      * intros [[= ? ?] | H]; [congruence|exact H].
      * discriminate.
      * intros [[= ? ?] | H]; [congruence|discriminate H].
Qed.

Lemma last_value_map {A B : Type} (f : A -> B) (members : list (string * A)) (k : string) :
  last_value (map (fun '(key, v) => (key, f v)) members) k = f <$> last_value members k.
Proof.
  induction members as [|[k0 v0] members IH]; [reflexivity|].
  cbn [map last_value]. rewrite IH. destruct (last_value members k); [reflexivity|].
  now destruct (String.eqb k0 k).
Qed.

Lemma doc_records_loaded (doc : document) (month cat : string) :
  doc_records (json_load doc) month cat = loaded_records doc month cat.
Proof.
  unfold doc_records, loaded_records, json_load.
  set (periods := map (fun '(month, cats) => (month, dict_of_members cats)) doc).
  destruct (dict_of_members_last periods) as [Hnd Hlast].
  rewrite (flat_map_keyed (fun cats => cats_records cats cat) month
             (dict_of_members periods) (last_value (dict_of_members periods) month) Hnd)
    by (intros v; now apply last_value_keyed).
  rewrite Hlast. unfold periods. rewrite last_value_map.
  destruct (last_value doc month) as [cats|]; [|reflexivity].
  cbn [fmap option_fmap option_map]. unfold cats_records.
  destruct (dict_of_members_last cats) as [Hnd' Hlast'].
  rewrite (flat_map_keyed (fun es => es) cat (dict_of_members cats)
             (last_value (dict_of_members cats) cat) Hnd')
    by (intros v; now apply last_value_keyed).
  rewrite Hlast'. now destruct (last_value cats cat).
Qed.

(** X3.  [load_data] extends and never replaces: after loading a document,
    every list of the ledger is what it was, followed by the records that
    the document gives that period and category, in file order; where a key
    comes twice in the file, only its last value is loaded.  A missing file
    changes nothing, an unreadable one empties the ledger, and loading the
    file of the ledger itself a second time doubles every list. *)
Theorem load_data_extends (L : ledger) :
  load_data NoFile L = L /\
  load_data Unreadable L = ∅ /\
  (forall doc month cat,
     records (load_data (Saved doc) L) month cat =
       records L month cat ++ loaded_records doc month cat) /\
  (forall month cat,
     records (load_data (save_data L) L) month cat =
       records L month cat ++ records L month cat).
Proof.
  split; [reflexivity|]. split; [reflexivity|]. split.
  - intros doc month cat. cbn [load_data].
    now rewrite records_load_document, doc_records_loaded.
  - intros month cat. unfold save_data, load_data.
    now rewrite json_load_saved, records_load_document, doc_records_saved.
Qed.

Lemma py_sum_snoc (xs : list float) (x : float) :
  py_sum (xs ++ [x]) = PrimFloat.add (py_sum xs) x.
Proof. unfold py_sum. now rewrite fold_left_app. Qed.

Lemma totals_get_map (f : string -> float) (cats : list string) (cat : string) :
  totals_get (map (fun c => (c, f c)) cats) cat =
    if bool_decide (cat ∈ cats) then f cat else zero.
Proof.
  induction cats as [|c cats IH]; [reflexivity|].
  cbn [map totals_get]. destruct (String.eqb_spec c cat) as [->|Hne].
  - rewrite bool_decide_eq_true_2 by left. reflexivity.
  - rewrite IH. destruct (bool_decide (cat ∈ cats)) eqn:Hin.
    + apply bool_decide_eq_true_1 in Hin.
      rewrite bool_decide_eq_true_2 by (now right). reflexivity.
    + apply bool_decide_eq_false_1 in Hin.
      rewrite bool_decide_eq_false_2; [reflexivity|].
      intros H. apply elem_of_cons in H as [->|H]; contradiction.
Qed.

(** The total of a category is the sum of its records in entry order, and
    0 for a category that is not declared. *)
Lemma category_total_eq (L : ledger) (month_key cat : string) :
  category_total L month_key cat =
    if bool_decide (cat ∈ categories)
    then py_sum (map amount (records L month_key cat))
    else zero.
Proof.
  unfold category_total. rewrite get_monthly_summary_eq. cbn [fst].
  now rewrite (totals_get_map (category_sum (month_data L month_key))).
Qed.

Lemma categorize_description_declared (str_lower : string -> string)
    (description : string) :
  categorize_description str_lower description ∈ categories.
Proof.
  unfold categorize_description.
  destruct (scan_categories str_lower category_keywords (str_lower description))
    as [found|] eqn:Hscan.
  - now apply scan_categories_declared in Hscan.
  - apply (bool_decide_unpack _). vm_compute. exact I.
Qed.

(** X4.  An entry counts where it was filed and nowhere else: after a
    successful [add_expense] under a declared category, the total that
    [get_monthly_summary] returns for that period and category is the
    former total plus the amount, and the total of every other period or
    category is unchanged.  The category found by the categoriser is always
    a declared one; under an undeclared category no total changes. *)
Theorem add_expense_totals (str_lower : string -> string) (st : tracker)
    (date_str description : string) (spent : float) (category : option string)
    (year month day : Z) :
  strptime (normalize_date date_str) = Ok (year, month, day) ->
  let st' := fst (add_expense str_lower st date_str description spent category) in
  let cat := filed_category str_lower description category in
  let key := month_key_of year month in
  (category = None -> cat ∈ categories) /\
  (cat ∈ categories ->
   category_total (expenses st') key cat =
     PrimFloat.add (category_total (expenses st) key cat) spent) /\
  (forall key' cat',
     (key', cat') <> (key, cat) \/ cat ∉ categories ->
     category_total (expenses st') key' cat' = category_total (expenses st) key' cat').
Proof.
  intros Hdate st' cat key.
  destruct (add_expense_success str_lower st date_str description spent category
              year month day Hdate) as (_ & Hnew & Hother & _).
  fold st' cat key in Hnew, Hother. split; [|split].
  - intros ->. apply categorize_description_declared.
  - intros Hcat. rewrite !category_total_eq, !bool_decide_eq_true_2 by exact Hcat.
    rewrite Hnew, map_app. apply py_sum_snoc.
  - intros key' cat' Hne. rewrite !category_total_eq.
    destruct (bool_decide (cat' ∈ categories)) eqn:Hin; [|reflexivity].
    apply bool_decide_eq_true_1 in Hin. rewrite Hother; [reflexivity|].
    destruct Hne as [Hne|Hnot]; [exact Hne|]. intros [= _ ->]. contradiction.
Qed.

Lemma add_expense_totals_witness :
  category_total
    (expenses (fst (add_expense ascii_lower (start NoFile) "24/2/14" "午餐" 25 None)))
    "2024-02" "吃饭" =
  PrimFloat.add (category_total (expenses (start NoFile)) "2024-02" "吃饭") 25.
Proof.
  apply (proj1 (proj2 (add_expense_totals ascii_lower (start NoFile) "24/2/14" "午餐" 25
                         None 2024 2 14 eq_refl))).
  apply (bool_decide_unpack _). vm_compute. exact I.
Defined.

Section Sessions.

Variable str_lower : string -> string.

Lemma restart_restores_aux (st : tracker) :
  reachable str_lower st -> start (file st) = st.
Proof.
  intros Hst. destruct (reachable_tracker_inv str_lower st Hst) as (_ & Hvac & Hfile).
  destruct st as [L f]. cbn [expenses file] in *. unfold start. f_equal.
  destruct Hfile as [[-> ->] | ->]; [reflexivity|]. now apply load_save_roundtrip.
Qed.

(** X5.  Nothing is lost and nothing is doubled by a restart: in every
    state the tracker reaches, a new tracker on the same file has the same
    ledger and the same file. *)
Theorem restart_restores (st : tracker) :
  reachable str_lower st -> start (file st) = st.
Proof. apply restart_restores_aux. Qed.

(** X6.  The ledger only grows: a step of a tracker keeps every list of
    records as a prefix of the list after the step, so no record is ever
    removed, changed or moved. *)
Theorem ledger_only_grows (st st' : tracker) :
  reachable str_lower st -> step str_lower st st' ->
  forall month_key cat,
    records (expenses st) month_key cat `prefix_of` records (expenses st') month_key cat.
Proof.
  intros Hst Hstep month_key cat. destruct Hstep as [st date_str description amount category|st].
  - destruct (strptime (normalize_date date_str)) as [[[year month] day]|e] eqn:Hdate.
    + destruct (add_expense_success str_lower st date_str description amount category
                  year month day Hdate) as (_ & Hnew & Hother & _).
      destruct (decide ((month_key, cat) =
                        (month_key_of year month,
                         filed_category str_lower description category))) as [[= -> ->]|Hne].
      * rewrite Hnew. now apply prefix_app_r.
      * now rewrite (Hother _ _ Hne).
    + now rewrite (add_expense_failure str_lower st date_str description amount category e Hdate).
  - now rewrite (restart_restores_aux st Hst).
Qed.

End Sessions.

(** ** The order of floats, and the main category of a year *)

Lemma SFltb_trans (x y z : spec_float) :
  SFltb x y = true -> SFltb y z = true -> SFltb x z = true.
Proof.
  unfold SFltb, SFcompare.
  destruct x as [sx|sx| |sx mx ex], y as [sy|sy| |sy my ey], z as [sz|sz| |sz mz ez];
    try destruct sx; try destruct sy; try destruct sz;
    try discriminate; try reflexivity.
  all: destruct (Z.compare_spec ex ey), (Z.compare_spec ey ez), (Z.compare_spec ex ez);
    try discriminate; try reflexivity; try lia; subst.
  all: rewrite <- ?Pos.compare_cont_antisym; cbn [CompOpp];
       change (Pos.compare_cont Eq ?a ?b) with (Pos.compare a b);
       destruct (Pos.compare_spec mx my), (Pos.compare_spec my mz), (Pos.compare_spec mx mz);
       cbn; try discriminate; try reflexivity; try lia.
Qed.

Lemma SFltb_eqb_r (x y z : spec_float) :
  SFltb x y = true -> SFeqb z y = true -> SFltb x z = true.
Proof.
  unfold SFltb, SFeqb, SFcompare.
  destruct x as [sx|sx| |sx mx ex], y as [sy|sy| |sy my ey], z as [sz|sz| |sz mz ez];
    try destruct sx; try destruct sy; try destruct sz;
    try discriminate; try reflexivity.
  all: destruct (Z.compare_spec ex ey), (Z.compare_spec ez ey), (Z.compare_spec ex ez);
    try discriminate; try reflexivity; try lia; subst.
  all: rewrite <- ?Pos.compare_cont_antisym; cbn [CompOpp];
       change (Pos.compare_cont Eq ?a ?b) with (Pos.compare a b);
       destruct (Pos.compare_spec mx my), (Pos.compare_spec mz my), (Pos.compare_spec mx mz);
       cbn; try discriminate; try reflexivity; try lia.
Qed.

Lemma SFltb_irrefl (x : spec_float) : SFltb x x = false.
Proof.
  unfold SFltb, SFcompare. destruct x as [s|s| |s m e]; try destruct s; try reflexivity.
  all: now rewrite Z.compare_refl, Pos.compare_cont_refl.
Qed.

(** The order [>] of floats is transitive and irreflexive, and it does not
    tell apart two floats that [==] equates. *)
Lemma gt_trans (x y z : float) : gt x y = true -> gt y z = true -> gt x z = true.
Proof.
  unfold gt. rewrite !ltb_spec. intros H1 H2. exact (SFltb_trans _ _ _ H2 H1).
Qed.

Lemma gt_irrefl (x : float) : gt x x = false.
Proof. unfold gt. rewrite ltb_spec. apply SFltb_irrefl. Qed.

Lemma gt_eqb (x y z : float) :
  gt x y = true -> PrimFloat.eqb z x = true -> gt z y = true.
Proof.
  unfold gt. rewrite !ltb_spec, FloatAxioms.eqb_spec. intros H1 H2.
  exact (SFltb_eqb_r _ _ _ H1 H2).
Qed.

(** What [max_from] returns, after the items [seen] of which [best] is the
    greatest so far: an item of the whole list; no item has a greater key,
    and no item before it has an equal key. *)
Lemma max_from_spec (seen : list (string * float)) (best : string * float)
    (rest : list (string * float)) (i : nat) :
  seen !! i = Some best ->
  (forall y, y ∈ seen -> gt (snd y) (snd best) = false) ->
  (forall j y, (j < i)%nat -> seen !! j = Some y ->
               PrimFloat.eqb (snd y) (snd best) = false) ->
  first_greatest (seen ++ rest) (max_from best rest).
Proof.
  revert seen best i. induction rest as [|x rest IH]; intros seen best i Hi Hmax Hfirst.
  - cbn [max_from]. rewrite app_nil_r. exists i. done.
  - cbn [max_from].
    replace (seen ++ x :: rest) with ((seen ++ [x]) ++ rest) by (now rewrite <- app_assoc).
    destruct (gt (snd x) (snd best)) eqn:Hx.
    + apply (IH (seen ++ [x]) x (length seen)).
      * now rewrite list_lookup_middle.
      * intros y Hy. apply elem_of_app in Hy as [Hy|Hy].
        -- destruct (gt (snd y) (snd x)) eqn:Hyx; [|reflexivity].
           rewrite <- (Hmax y Hy). symmetry. exact (gt_trans _ _ _ Hyx Hx).
        -- apply list_elem_of_singleton in Hy as ->. apply gt_irrefl.
      * intros j y Hj Hy. rewrite lookup_app_l in Hy by exact Hj.
        destruct (PrimFloat.eqb (snd y) (snd x)) eqn:Heq; [|reflexivity].
        rewrite <- (Hmax y (list_elem_of_lookup_2 _ _ _ Hy)). symmetry.
        exact (gt_eqb _ _ _ Hx Heq).
    + apply (IH (seen ++ [x]) best i).
      * rewrite lookup_app_l; [exact Hi|]. now apply lookup_lt_Some in Hi.
      * intros y Hy. apply elem_of_app in Hy as [Hy|Hy]; [now apply Hmax|].
        now apply list_elem_of_singleton in Hy as ->.
      * intros j y Hj Hy. apply (Hfirst j y Hj).
        rewrite lookup_app_l in Hy; [exact Hy|].
        apply lookup_lt_Some in Hi. lia.
Qed.

Lemma py_max_spec (items : list (string * float)) (best : string * float) :
  py_max items = Ok best -> first_greatest items best.
Proof.
  destruct items as [|x rest]; [discriminate|]. intros [= <-].
  apply (max_from_spec [x] x rest 0); [reflexivity| |intros j y Hj; lia].
  intros y Hy. apply list_elem_of_singleton in Hy as ->. apply gt_irrefl.
Qed.

Lemma py_item_month (L : ledger) (year : string) (month : Z) :
  1 <= month <= 12 ->
  py_item (yearly_totals L year) (month - 1) = Ok (month_total L year month).
Proof.
  intros Hm.
  assert (Hin : month ∈ month_numbers)
    by (unfold month_numbers; rewrite !elem_of_cons; lia).
  unfold month_numbers in Hin. rewrite !elem_of_cons in Hin.
  destruct Hin as [->|[->|[->|[->|[->|[->|[->|[->|[->|[->|[->|[->|Hin]]]]]]]]]]]];
    [reflexivity..|inversion Hin].
Qed.

(** The analysis of a year whose totals do not sum to zero goes through. *)
Lemma yearly_analysis_Ok (L : ledger) (year : string) :
  is_zero (py_sum (yearly_totals L year)) = false ->
  exists best,
    py_max (category_year_totals L year) = Ok best /\
    generate_yearly_report L year =
      YearlyReport
        {| total_year := py_sum (yearly_totals L year);
           max_category := fst best;
           max_share :=
             PrimFloat.mul (PrimFloat.div (snd best) (py_sum (yearly_totals L year)))
               hundred;
           monthly_avg := PrimFloat.div (py_sum (yearly_totals L year)) twelve;
           high_months :=
             List.filter
               (fun m => match py_item (yearly_totals L year) (m - 1) with
                         | Ok x => gt x (PrimFloat.div (py_sum (yearly_totals L year)) twelve)
                         | Raise _ => false
                         end) month_numbers;
           trend := trend_label_of
                      (trend_ratio (january_total L year) (december_total L year)) |}.
Proof.
  intros Hsum. unfold generate_yearly_report. rewrite Hsum.
  unfold yearly_analysis. fold (category_year_totals L year).
  destruct (py_max (category_year_totals L year)) as [best|e] eqn:Hbest;
    [|discriminate Hbest].
  exists best. split; [reflexivity|].
  rewrite bind_Ok, (py_div_nonzero _ _ Hsum), bind_Ok.
  rewrite (py_div_nonzero _ twelve) by reflexivity. rewrite bind_Ok.
  assert (Htrend : trend_of (yearly_totals L year) =
            Ok (trend_ratio (january_total L year) (december_total L year))).
  { destruct (yearly_totals_ends L year) as (mid & _ & ->). apply trend_of_ends. }
  rewrite Htrend, bind_Ok. reflexivity.
Qed.

Lemma yearly_figures_hold (L : ledger) (year : string) :
  is_zero (py_sum (yearly_totals L year)) = false -> yearly_figures L year.
Proof.
  intros Hsum.
  destruct (yearly_analysis_Ok L year Hsum) as (best & _ & Hr).
  unfold yearly_figures. eexists. split; [exact Hr|].
  cbn [total_year monthly_avg high_months]. split; [reflexivity|]. split; [reflexivity|].
  intros month. rewrite list_elem_of_In, filter_In, <- list_elem_of_In. split.
  + intros [Hin Hgt].
    assert (Hm : 1 <= month <= 12).
    { unfold month_numbers in Hin. rewrite !elem_of_cons in Hin.
      destruct Hin as [->|[->|[->|[->|[->|[->|[->|[->|[->|[->|[->|[->|Hin]]]]]]]]]]]];
        [lia..|inversion Hin]. }
    split; [exact Hm|]. now rewrite (py_item_month L year month Hm) in Hgt.
  + intros [Hm Hgt]. split.
    * unfold month_numbers. rewrite !elem_of_cons. lia.
    * now rewrite (py_item_month L year month Hm).
Qed.

(** X7.  The yearly report ends early only in the font lookup, the loading
    of the font or the trend chart: its own analysis never fails.  Once the
    font is found, it says that the year has no records exactly when the
    twelve monthly totals sum to zero; otherwise, once the chart is drawn,
    it gives their sum as the yearly total, a twelfth of it as the monthly
    average, and as the months of high spending exactly the months, in 1 to
    12, whose total is above that average. *)
Theorem yearly_report_fails_only_in_drawing (h : Host.host) (L : ledger) (year : string) :
  year_reported h L year.
Proof.
  unfold year_reported, Host.generate_yearly_report, Host.font_found. cbv zeta. split.
  - intros e.
    destruct (Host.get_font_path h) as [p|e0];
      [rewrite bind_Ok|rewrite bind_Raise; intros [= <-]; now left].
    destruct (Host.font_properties h p) as [[]|e1] eqn:Hprops;
      [rewrite bind_Ok
      |rewrite bind_Raise; intros [= <-]; right; exists p; split; [reflexivity|now left]].
    destruct (is_zero (py_sum (yearly_totals L year))) eqn:Hsum; [discriminate|].
    destruct (Host.trend_chart h p year (Host.plotted L year)) as [[]|e2] eqn:Hchart;
      [rewrite bind_Ok
      |rewrite bind_Raise; intros [= <-]; right; exists p; split; [reflexivity|now right]].
    destruct (yearly_analysis_Ok L year Hsum) as (best & _ & Hr).
    unfold generate_yearly_report in Hr. rewrite Hsum in Hr.
    destruct (yearly_analysis L year (yearly_totals L year)) as [r|e3];
      [rewrite bind_Ok; discriminate|discriminate Hr].
  - intros p [Hfont Hprops]. rewrite Hfont, bind_Ok, Hprops, bind_Ok. split.
    + intros Hsum. now rewrite Hsum.
    + intros Hsum Hchart. rewrite Hsum, Hchart, bind_Ok.
      split; [|now apply yearly_figures_hold].
      unfold generate_yearly_report. rewrite Hsum.
      now destruct (yearly_analysis L year (yearly_totals L year)).
Qed.

(** X8.  The main category of the yearly report is a declared category
    whose yearly total no category exceeds, and among the categories with
    that total it is the one declared first; its share is its total divided
    by the yearly total, times 100. *)
Theorem yearly_main_category_greatest (L : ledger) (year : string) :
  is_zero (py_sum (yearly_totals L year)) = false -> yearly_main_category L year.
Proof.
  intros Hsum. destruct (yearly_analysis_Ok L year Hsum) as (best & Hbest & Hr).
  unfold yearly_main_category. eexists _, best. split; [exact Hr|].
  pose proof (py_max_spec _ _ Hbest) as Hspec.
  split; [exact Hspec|]. cbn [max_category max_share].
  split; [reflexivity|]. split; [|reflexivity].
  destruct Hspec as (i & Hi & _). apply list_elem_of_lookup_2 in Hi.
  unfold category_year_totals in Hi.
  apply list_elem_of_fmap in Hi as (cat & -> & Hcat). exact Hcat.
Qed.

Lemma yearly_main_category_greatest_witness : yearly_main_category two_months "2024".
Proof.
  apply (yearly_main_category_greatest two_months "2024").
  vm_compute. reflexivity.
Defined.

(** ** The menu: choice 2 *)

Lemma digit_in_digit (lo hi : N) (c : ascii) : digit_in lo hi c = true -> is_digit c = true.
Proof. unfold digit_in. now intros [H _]%andb_true_iff. Qed.

Lemma at_end_one_line (s rest : string) :
  at_end rest = true -> one_line (s +:+ rest) -> rest = "".
Proof.
  intros Hend Hline. destruct rest as [|x [|? ?]]; [reflexivity| |discriminate Hend].
  cbn [at_end] in Hend. apply Ascii.eqb_eq in Hend as ->. exfalso.
  unfold one_line in Hline.
  assert (Hsub : contains (String "010" "") (s +:+ String "010" "") = true).
  { apply contains_spec. exists s, EmptyString. reflexivity. }
  congruence.
Qed.

(** A key that the menu accepts has a previous period. *)
Lemma accepted_prev_month (month : string) :
  one_line month -> month_key_accepted month = true ->
  exists prev, prev_month month = Ok prev.
Proof.
  intros Hline Hacc. unfold month_key_accepted in Hacc.
  destruct month as [|a [|b [|c [|d [|h [|m1 [|m2 rest]]]]]]]; try discriminate Hacc.
  apply andb_true_iff in Hacc as [Hacc Hend].
  apply andb_true_iff in Hacc as [Hacc Hmm].
  apply andb_true_iff in Hacc as [Hacc Hh].
  apply andb_true_iff in Hacc as [Hacc Hd].
  apply andb_true_iff in Hacc as [Hacc Hc].
  apply andb_true_iff in Hacc as [Ha Hb].
  apply Ascii.eqb_eq in Hh as ->.
  assert (Hrest : rest = "").
  { apply (at_end_one_line (String a (String b (String c (String d
             (String "-" (String m1 (String m2 ""))))))) rest Hend). exact Hline. }
  subst rest.
  assert (Hm : is_digit m1 = true /\ is_digit m2 = true).
  { apply orb_true_iff in Hmm as [[H1 H2]%andb_true_iff|[H1 H2]%andb_true_iff];
      apply Ascii.eqb_eq in H1 as ->; split; try reflexivity;
      exact (digit_in_digit _ _ _ H2). }
  destruct Hm as [Hm1 Hm2].
  unfold prev_month.
  change (String a (String b (String c (String d (String "-" (String m1 (String m2 "")))))))
    with (String a (String b (String c (String d ""))) +:+ "-" +:+ String m1 (String m2 "")).
  rewrite split_digits_hyphen
    by (cbn [all_digits]; rewrite ?Ha, ?Hb, ?Hc, ?Hd, ?Hm1, ?Hm2; reflexivity).
  rewrite !py_int_digits
    by first [discriminate
             |cbn [all_digits]; rewrite ?Ha, ?Hb, ?Hc, ?Hd, ?Hm1, ?Hm2; reflexivity].
  rewrite !bind_Ok. eexists. reflexivity.
Qed.

(** X9.  A month key of ASCII digits that the menu accepts, four digits, a
    hyphen and a month from 01 to 12, is passed to the monthly report and
    always has a previous period, for the years 0000 to 0999 as well: the
    report never ends in the reading of the key.  It ends early only in the
    font lookup, the loading of the font or the pie chart; once the font is
    found, a month whose total is 0 gets the message that it has no records,
    and any other month, once its pie chart is drawn, gets its total and the
    comparison of every category with the previous period. *)
Theorem menu_month_key_reported (h : Host.host) (L : ledger) (month : string) :
  one_line month ->
  month_key_accepted month = true ->
  menu_monthly_report h L month = Some (Host.generate_monthly_report h L month) /\
  exists prev, month_reported h L month prev.
Proof.
  intros Hline Hacc. unfold menu_monthly_report. rewrite Hacc.
  split; [reflexivity|].
  destruct (accepted_prev_month month Hline Hacc) as [prev Hprev].
  exists prev. now apply monthly_report_with_prev.
Qed.

Lemma menu_month_key_reported_witness :
  menu_monthly_report Host.linux_host two_months "0999-01" =
    Some (Host.generate_monthly_report Host.linux_host two_months "0999-01") /\
  exists prev, month_reported Host.linux_host two_months "0999-01" prev.
Proof.
  apply (menu_month_key_reported Host.linux_host two_months "0999-01"); reflexivity.
Defined.

(** ** The reports on a host *)

Lemma get_font_path_raises (h : Host.host) (e : py_exn) :
  Host.get_font_path h = Raise e ->
  e = FileNotFoundError /\
  Host.system h <> "Windows" /\ Host.system h <> "Darwin" /\
  forall path, path ∈ Host.possible_paths -> Host.path_exists h path = false.
Proof.
  unfold Host.get_font_path.
  destruct (String.eqb_spec (Host.system h) "Windows") as [|Hw]; [discriminate|].
  destruct (String.eqb_spec (Host.system h) "Darwin") as [|Hd]; [discriminate|].
  destruct (List.find (Host.path_exists h) Host.possible_paths) eqn:Hfind; [discriminate|].
  intros [= <-]. split; [reflexivity|]. split; [exact Hw|]. split; [exact Hd|].
  intros path Hin. apply list_elem_of_In in Hin.
  exact (find_none _ _ Hfind path Hin).
Qed.

(** X15.  What the host decides and what it does not.  [get_font_path]
    raises nothing but [FileNotFoundError], and only on a system that is
    neither Windows nor macOS and has neither of the two fonts; then both
    reports end with that error, whatever the ledger holds.  On a host
    where the font is found and the charts are drawn, the two methods print
    exactly what [generate_monthly_report] and [generate_yearly_report]
    return. *)
Theorem reports_on_host (h : Host.host) (L : ledger) :
  (forall e,
     Host.get_font_path h = Raise e ->
     e = FileNotFoundError /\
     Host.system h <> "Windows" /\ Host.system h <> "Darwin" /\
     (forall path, path ∈ Host.possible_paths -> Host.path_exists h path = false) /\
     (forall month_key, Host.generate_monthly_report h L month_key = MonthlyFailed e) /\
     (forall year, Host.generate_yearly_report h L year = YearlyFailed e)) /\
  (drawn h L ->
   (forall month_key,
      Host.generate_monthly_report h L month_key = generate_monthly_report L month_key) /\
   (forall year,
      Host.generate_yearly_report h L year = generate_yearly_report L year)).
Proof.
  split.
  - intros e He. destruct (get_font_path_raises h e He) as (H1 & H2 & H3 & H4).
    repeat match goal with |- _ /\ _ => split end; try assumption.
    + intros month_key. unfold Host.generate_monthly_report. now rewrite He.
    + intros year. unfold Host.generate_yearly_report. now rewrite He.
  - intros (p & [Hfont Hprops] & Hpie & Hchart). split.
    + intros month_key. specialize (Hpie month_key).
      unfold Host.generate_monthly_report, generate_monthly_report, Host.pie_of in *.
      rewrite Hfont, bind_Ok, Hprops, bind_Ok.
      destruct (get_monthly_summary L month_key) as [category_totals total].
      cbn [fst] in Hpie. destruct (is_zero total); [reflexivity|].
      rewrite Hpie, bind_Ok.
      destruct (prev_month month_key) as [prev|e]; [rewrite !bind_Ok|reflexivity].
      destruct (get_monthly_summary L prev) as [prev_totals prev_total].
      now destruct (comparison category_totals prev_totals categories).
    + intros year. specialize (Hchart year).
      unfold Host.generate_yearly_report, generate_yearly_report. cbv zeta.
      rewrite Hfont, bind_Ok, Hprops, bind_Ok.
      destruct (is_zero (py_sum (yearly_totals L year))); [reflexivity|].
      rewrite Hchart, bind_Ok.
      now destruct (yearly_analysis L year (yearly_totals L year)).
Qed.

Lemma reports_on_host_witness :
  (forall month_key,
     Host.generate_monthly_report Host.linux_host two_months month_key =
       generate_monthly_report two_months month_key) /\
  (forall year,
     Host.generate_yearly_report Host.linux_host two_months year =
       generate_yearly_report two_months year).
Proof.
  apply (proj2 (reports_on_host Host.linux_host two_months)).
  exists "/usr/share/fonts/truetype/wqy/wqy-microhei.ttc".
  split; [split; reflexivity|]. split; reflexivity.
Defined.

(** Without a font both reports end before they look at the ledger: the
    yearly report of an empty ledger fails as well. *)
Example reports_without_font :
  Host.generate_monthly_report Host.bare_host two_months "2024-02" =
    MonthlyFailed FileNotFoundError /\
  Host.generate_yearly_report Host.bare_host ∅ "2024" = YearlyFailed FileNotFoundError.
Proof. vm_compute. split; reflexivity. Qed.

(** ** What the patterns accept *)

Lemma string_app_cons (x : ascii) (a b : string) :
  String x a +:+ b = String x (a +:+ b).
Proof. reflexivity. Qed.

Lemma string_app_assoc (a b c : string) : (a +:+ b) +:+ c = a +:+ b +:+ c.
Proof.
  induction a as [|x a IH]; [reflexivity|]. rewrite !string_app_cons. now f_equal.
Qed.

Lemma string_app_nil_r (a : string) : a +:+ "" = a.
Proof. induction a as [|x a IH]; [reflexivity|]. rewrite string_app_cons. now f_equal. Qed.

Lemma string_length_app (a b : string) :
  String.length (a +:+ b) = (String.length a + String.length b)%nat.
Proof.
  induction a as [|x a IH]; [reflexivity|]. rewrite string_app_cons.
  cbn [String.length Nat.add]. now f_equal.
Qed.

Module RegexFacts.

Import Regex RegexSpec.

Lemma run_rep cls lo hi p s pos :
  run (Rep cls lo hi :: p) s pos = rep_from cls lo hi (run p) 0 s pos.
Proof. reflexivity. Qed.

Lemma rep_from_unfold cls lo hi k n s pos :
  rep_from cls lo hi k n s pos =
    let stop := if Nat.leb lo n then k s pos else None in
    match s with
    | String c s' =>
        if cls c && below hi n then
          match rep_from cls lo hi k (S n) s' (S pos) with
          | Some marks => Some marks
          | None => stop
          end
        else stop
    | EmptyString => stop
    end.
Proof. destruct s; reflexivity. Qed.

Lemma below_within hi n : below hi n = true <-> within hi (S n).
Proof.
  destruct hi as [h|]; cbn [below within]; [|done].
  rewrite Nat.ltb_lt. lia.
Qed.

(** A repetition finds a match whenever one exists. *)
Lemma rep_from_complete cls lo hi k w :
  forall n s pos marks,
    all_chars cls w = true ->
    (lo <= n + String.length w)%nat ->
    (w = "" \/ within hi (n + String.length w)) ->
    k s (pos + String.length w)%nat = Some marks ->
    exists marks', rep_from cls lo hi k n (w +:+ s) pos = Some marks'.
Proof.
  induction w as [|c w IH]; intros n s pos marks Hcls Hlo Hhi Hk.
  - cbn [String.length] in *. rewrite Nat.add_0_r in Hlo, Hk.
    change ("" +:+ s) with s. rewrite rep_from_unfold. cbv zeta.
    replace (Nat.leb lo n) with true by (symmetry; apply Nat.leb_le; lia).
    rewrite Hk. destruct s as [|c s]; [eauto|].
    destruct (cls c && below hi n); [|eauto].
    destruct (rep_from cls lo hi k (S n) s (S pos)); eauto.
  - cbn [all_chars] in Hcls. apply andb_true_iff in Hcls as [Hc Hcls].
    cbn [String.length] in *.
    destruct Hhi as [Hhi|Hhi]; [discriminate Hhi|].
    change (String c w +:+ s) with (String c (w +:+ s)).
    rewrite rep_from_unfold. cbv zeta. rewrite Hc.
    assert (Hbelow : below hi n = true).
    { apply below_within. destruct hi as [h|]; cbn [within] in *; [lia|done]. }
    rewrite Hbelow. cbn [andb].
    destruct (IH (S n) s (S pos) marks Hcls) as [marks' ->]; [lia| |..|eauto].
    + right. now replace (S n + String.length w)%nat with (n + S (String.length w))%nat by lia.
    + now replace (S pos + String.length w)%nat with (pos + S (String.length w))%nat by lia.
Qed.

(** What a repetition returns is a match, and no longer run of the class
    has a match after it. *)
Lemma rep_from_sound cls lo hi k s :
  forall n pos marks,
    rep_from cls lo hi k n s pos = Some marks ->
    exists w s',
      s = w +:+ s' /\ all_chars cls w = true /\
      (lo <= n + String.length w)%nat /\
      (w = "" \/ within hi (n + String.length w)) /\
      k s' (pos + String.length w)%nat = Some marks /\
      (forall w2 s2,
         s = w2 +:+ s2 -> (String.length w < String.length w2)%nat ->
         all_chars cls w2 = true -> within hi (n + String.length w2) ->
         k s2 (pos + String.length w2)%nat = None).
Proof.
  induction s as [|c s IH]; intros n pos marks; rewrite rep_from_unfold; cbv zeta.
  - destruct (Nat.leb lo n) eqn:Hlo; [|discriminate]. intros Hk.
    apply Nat.leb_le in Hlo.
    exists EmptyString, EmptyString. cbn [String.length]. rewrite !Nat.add_0_r.
    repeat split; try done; [now left|].
    intros w2 s2 Hs Hlen. destruct w2; [cbn in Hlen; lia|discriminate Hs].
  - assert (Hstop : (if Nat.leb lo n then k (String c s) pos else None) = Some marks ->
              (cls c && below hi n = false \/
               rep_from cls lo hi k (S n) s (S pos) = None) ->
              exists w s',
                String c s = w +:+ s' /\ all_chars cls w = true /\
                (lo <= n + String.length w)%nat /\
                (w = "" \/ within hi (n + String.length w)) /\
                k s' (pos + String.length w)%nat = Some marks /\
                (forall w2 s2,
                   String c s = w2 +:+ s2 -> (String.length w < String.length w2)%nat ->
                   all_chars cls w2 = true -> within hi (n + String.length w2) ->
                   k s2 (pos + String.length w2)%nat = None)).
    { destruct (Nat.leb lo n) eqn:Hlo; [|discriminate]. intros Hk Hwhy.
      apply Nat.leb_le in Hlo.
      exists EmptyString, (String c s). cbn [String.length]. rewrite !Nat.add_0_r.
      repeat split; try done; [now left|].
      intros w2 s2 Hs Hlen Hcls Hhi.
      destruct w2 as [|c2 w2]; [cbn in Hlen; lia|].
      change (String c2 w2 +:+ s2) with (String c2 (w2 +:+ s2)) in Hs.
      injection Hs as <- ->. cbn [all_chars] in Hcls.
      apply andb_true_iff in Hcls as [Hc Hcls]. cbn [String.length] in Hhi |- *.
      assert (Hbelow : below hi n = true).
      { apply below_within. destruct hi as [h|]; cbn [within] in *; [lia|done]. }
      destruct Hwhy as [Hwhy|Hwhy]; [rewrite Hc, Hbelow in Hwhy; discriminate Hwhy|].
      destruct (k s2 (pos + S (String.length w2))%nat) as [marks2|] eqn:Hk2; [|reflexivity].
      exfalso.
      destruct (rep_from_complete cls lo hi k w2 (S n) s2 (S pos) marks2 Hcls)
        as [marks' Hsome]; [lia| | |congruence].
      - right. now replace (S n + String.length w2)%nat
                 with (n + S (String.length w2))%nat by lia.
      - now replace (S pos + String.length w2)%nat
          with (pos + S (String.length w2))%nat by lia. }
    destruct (cls c && below hi n) eqn:Hcond; [|intros Hk; now apply Hstop; [|left]].
    destruct (rep_from cls lo hi k (S n) s (S pos)) as [marks1|] eqn:Hrep;
      [|intros Hk; now apply Hstop; [|right]].
    intros [= ->]. apply andb_true_iff in Hcond as [Hc Hbelow].
    destruct (IH (S n) (S pos) marks Hrep) as (w & s' & -> & Hcls & Hlo & Hhi & Hk & Hmax).
    exists (String c w), s'. cbn [String.length all_chars]. rewrite Hc, Hcls.
    repeat split; try done.
    + lia.
    + right. destruct Hhi as [->|Hhi].
      * cbn [String.length]. apply below_within in Hbelow.
        now replace (n + 1)%nat with (S n) by lia.
      * now replace (n + S (String.length w))%nat with (S n + String.length w)%nat by lia.
    + now replace (pos + S (String.length w))%nat with (S pos + String.length w)%nat by lia.
    + intros w2 s2 Hs Hlen Hcls2 Hhi2.
      destruct w2 as [|c2 w2]; [cbn in Hlen; lia|].
      change (String c2 w2 +:+ s2) with (String c2 (w2 +:+ s2)) in Hs.
      injection Hs as <- Hs. cbn [all_chars] in Hcls2.
      apply andb_true_iff in Hcls2 as [_ Hcls2]. cbn [String.length] in *.
      replace (pos + S (String.length w2))%nat with (S pos + String.length w2)%nat by lia.
      apply Hmax; [exact Hs|lia|exact Hcls2|].
      now replace (S n + String.length w2)%nat with (n + S (String.length w2))%nat by lia.
Qed.

Lemma eat_app (text s : string) : eat text (text +:+ s) = Some s.
Proof.
  induction text as [|c text IH]; [reflexivity|].
  rewrite string_app_cons. cbn [eat]. unfold ascii_eqb. now rewrite Ascii.eqb_refl.
Qed.

Lemma eat_Some (text s rest : string) : eat text s = Some rest -> s = text +:+ rest.
Proof.
  revert s. induction text as [|c text IH]; intros s; cbn [eat].
  - now intros [= ->].
  - destruct s as [|x s]; [discriminate|].
    destruct (ascii_eqb c x) eqn:Hc; [|discriminate].
    apply Ascii.eqb_eq in Hc as ->. intros H. rewrite string_app_cons. f_equal. now apply IH.
Qed.

Lemma run_chars text p s pos :
  run (Chars text :: p) s pos =
    match eat text s with
    | Some s' => run p s' (pos + String.length text)%nat
    | None => None
    end.
Proof. reflexivity. Qed.

Lemma run_mark p s pos :
  run (Mark :: p) s pos =
    match run p s pos with
    | Some marks => Some (pos :: marks)
    | None => None
    end.
Proof. reflexivity. Qed.

(** [run] finds a match whenever the text begins with one. *)
Lemma run_complete p s :
  parses p s -> forall pos, exists marks, run p s pos = Some marks.
Proof.
  induction 1 as [s|text p s _ IH|p s _ IH|cls lo hi p w s Hcls Hlo Hhi _ IH]; intros pos.
  - exists []. reflexivity.
  - rewrite run_chars, eat_app. apply IH.
  - rewrite run_mark. destruct (IH pos) as [marks ->]. eauto.
  - rewrite run_rep. destruct (IH (pos + String.length w)%nat) as [marks Hk].
    apply (rep_from_complete cls lo hi (run p) w 0 s pos marks Hcls); [lia| |exact Hk].
    now right.
Qed.

(** What [run] returns is the chosen match. *)
Lemma run_sound p :
  forall s pos marks, run p s pos = Some marks -> chosen p s pos marks.
Proof.
  induction p as [|[text|cls lo hi|] p IH]; intros s pos marks.
  - intros [= <-]. constructor.
  - rewrite run_chars. destruct (eat text s) as [s'|] eqn:Heat; [|discriminate].
    apply eat_Some in Heat as ->. intros H. constructor. now apply IH.
  - rewrite run_rep. intros H.
    destruct (rep_from_sound cls lo hi (run p) s 0 pos marks H)
      as (w & s' & -> & Hcls & Hlo & Hhi & Hk & Hmax).
    cbn [Nat.add] in *. constructor; try done.
    + destruct Hhi as [->|Hhi]; [|exact Hhi].
      destruct hi; cbn [within String.length]; [lia|done].
    + now apply IH.
    + intros w2 s2 Hs Hlen Hcls2 Hhi2 Hparses.
      destruct (run_complete p s2 Hparses (pos + String.length w2)%nat) as [marks2 Hsome].
      rewrite (Hmax w2 s2 Hs Hlen Hcls2 Hhi2) in Hsome. discriminate Hsome.
  - rewrite run_mark. destruct (run p s pos) as [marks'|] eqn:Hrun; [|discriminate].
    intros [= <-]. constructor. now apply IH.
Qed.

Lemma chosen_parses p s pos marks : chosen p s pos marks -> parses p s.
Proof. induction 1; constructor; done. Qed.

End RegexFacts.

(** ** Entries, as [parse_input] reads them *)

Lemma substring_skip (a s : string) (m : nat) :
  String.substring (String.length a) m (a +:+ s) = String.substring 0 m s.
Proof. induction a as [|c a IH]; [reflexivity|]. rewrite string_app_cons. exact IH. Qed.

Lemma substring_take (w b : string) :
  String.substring 0 (String.length w) (w +:+ b) = w.
Proof.
  induction w as [|c w IH]; [now destruct b|].
  rewrite string_app_cons. cbn [String.length String.substring]. now f_equal.
Qed.

(** The text between two offsets of a line cut in three. *)
Lemma slice_spec (line a w b : string) (from to : nat) :
  line = a +:+ w +:+ b ->
  from = String.length a ->
  to = (String.length a + String.length w)%nat ->
  Regex.slice line from to = w.
Proof.
  intros -> -> ->. unfold Regex.slice.
  replace (String.length a + String.length w - String.length a)%nat
    with (String.length w) by lia.
  now rewrite substring_skip, substring_take.
Qed.

Lemma all_chars_digits (s : string) : RegexSpec.all_chars is_digit s = all_digits s.
Proof. induction s as [|c s IH]; [reflexivity|]. cbn. now rewrite IH. Qed.

Lemma digit_not_point (c : ascii) : is_digit c = true -> is_point c = false.
Proof. destruct c as [[] [] [] [] [] [] [] []]; vm_compute; congruence. Qed.

Lemma before_point_digits (w s : string) :
  all_digits w = true -> before_point (w +:+ s) = w +:+ before_point s.
Proof.
  induction w as [|c w IH]; [reflexivity|].
  cbn [all_digits]. intros [Hc Hw]%andb_true_iff.
  rewrite !string_app_cons. cbn [before_point].
  now rewrite (digit_not_point c Hc), (IH Hw).
Qed.

Lemma after_point_digits (w s : string) :
  all_digits w = true -> after_point (w +:+ s) = after_point s.
Proof.
  induction w as [|c w IH]; [reflexivity|].
  cbn [all_digits]. intros [Hc Hw]%andb_true_iff.
  rewrite string_app_cons. cbn [after_point].
  now rewrite (digit_not_point c Hc), (IH Hw).
Qed.

Lemma before_point_all_digits (w : string) : all_digits w = true -> before_point w = w.
Proof.
  intros Hw. rewrite <- (string_app_nil_r w) at 1.
  rewrite (before_point_digits w "" Hw). apply string_app_nil_r.
Qed.

Lemma after_point_all_digits (w : string) : all_digits w = true -> after_point w = "".
Proof.
  intros Hw. rewrite <- (string_app_nil_r w). now rewrite (after_point_digits w "" Hw).
Qed.

Lemma all_digits_app (a b : string) :
  all_digits (a +:+ b) = all_digits a && all_digits b.
Proof.
  induction a as [|c a IH]; [reflexivity|].
  rewrite string_app_cons. cbn [all_digits]. now rewrite IH, andb_assoc.
Qed.

(** [float] reads the token of a well-formed entry. *)
Lemma py_float_token (e : entry) :
  well_formed e -> py_float (entry_token e) = Ok (entry_amount e).
Proof.
  intros (_ & _ & _ & _ & _ & _ & _ & _ & Hw & Hne & Hpt & Hf).
  unfold py_float, entry_token, entry_amount.
  rewrite (before_point_digits _ _ Hw), (after_point_digits _ _ Hw).
  destruct Hpt as [-> | ->].
  - change ("" +:+ entry_fraction e) with (entry_fraction e).
    rewrite (before_point_all_digits _ Hf), (after_point_all_digits _ Hf).
    rewrite !string_app_nil_r.
    destruct (entry_whole e +:+ entry_fraction e) eqn:Hs.
    + destruct (entry_whole e); [contradiction|discriminate Hs].
    + rewrite <- Hs. rewrite all_digits_app, Hw, Hf. reflexivity.
  - change ("." +:+ entry_fraction e) with (String "." (entry_fraction e)).
    cbn [before_point after_point]. change (is_point ".") with true. cbv iota.
    rewrite string_app_nil_r.
    destruct (entry_whole e) eqn:Hs; [contradiction|].
    rewrite <- Hs in *. now rewrite Hw, Hf.
Qed.

Section EntryPattern.

Import Regex RegexSpec RegexFacts.

Lemma all_chars_app cls (a b : string) :
  all_chars cls (a +:+ b) = all_chars cls a && all_chars cls b.
Proof.
  induction a as [|c a IH]; [reflexivity|].
  rewrite string_app_cons. cbn [all_chars]. now rewrite IH, andb_assoc.
Qed.

Lemma parses_optional cls hi p s : parses p s -> parses (Rep cls 0 hi :: p) s.
Proof.
  intros H. apply (parses_rep cls 0 hi p "" s); try done.
  destruct hi; cbn [within String.length]; [lia|done].
Qed.

Lemma parses_after_point s : parses after_point_item s.
Proof. apply parses_optional. repeat constructor. Qed.

Lemma parses_after_whole s : parses after_whole s.
Proof. apply parses_optional, parses_after_point. Qed.

Lemma parses_after_description (s : string) :
  hyphen_digit s = true -> parses after_description s.
Proof.
  destruct s as [|h [|c s]]; try discriminate. cbn [hyphen_digit].
  intros [Hh Hc]%andb_true_iff. apply Ascii.eqb_eq in Hh as ->.
  apply parses_mark.
  apply (parses_chars "-" _ (String c s)). apply parses_mark.
  apply (parses_rep is_digit 1 None _ (String c "") s).
  - cbn [all_chars]. now rewrite Hc.
  - cbn. lia.
  - exact I.
  - apply parses_after_whole.
Qed.

(** The match that [run] makes of the pattern of entries, part by part. *)
Lemma entry_chosen_inv (line : string) (marks : list nat) :
  chosen entry_pattern line 0 marks ->
  exists y m d t i pt f rest,
    line = y +:+ "/" +:+ m +:+ "/" +:+ d +:+ "，" +:+ t +:+ "-" +:+ i +:+ pt +:+ f +:+ rest /\
    marks =
      (let d1 := (0 + String.length y + 1 + String.length m + 1 + String.length d)%nat in
       let t0 := (d1 + 3)%nat in
       let t1 := (t0 + String.length t)%nat in
       let a0 := (t1 + 1)%nat in
       let a1 := (a0 + String.length i + String.length pt + String.length f)%nat in
       [0%nat; d1; t0; t1; a0; a1]) /\
    (all_chars is_digit y = true /\ between 2 4 y) /\
    (all_chars is_digit m = true /\ between 1 2 m) /\
    (all_chars is_digit d = true /\ between 1 2 d) /\
    (all_chars not_newline t = true /\ (1 <= String.length t)%nat) /\
    (all_chars is_digit i = true /\ (1 <= String.length i)%nat) /\
    (all_chars is_point pt = true /\ (String.length pt <= 1)%nat) /\
    all_chars is_digit f = true /\
    (forall w' s',
       t +:+ "-" +:+ i +:+ pt +:+ f +:+ rest = w' +:+ s' ->
       (String.length t < String.length w')%nat ->
       all_chars not_newline w' = true -> ~ parses after_description s') /\
    (forall w' s',
       i +:+ pt +:+ f +:+ rest = w' +:+ s' ->
       (String.length i < String.length w')%nat ->
       all_chars is_digit w' = true -> ~ parses after_whole s') /\
    (forall w' s',
       pt +:+ f +:+ rest = w' +:+ s' ->
       (String.length pt < String.length w')%nat ->
       all_chars is_point w' = true -> (String.length w' <= 1)%nat ->
       ~ parses after_point_item s') /\
    (forall w' s',
       f +:+ rest = w' +:+ s' ->
       (String.length f < String.length w')%nat ->
       all_chars is_digit w' = true -> ~ parses [Mark] s').
Proof.
  unfold entry_pattern. intros H.
  repeat match goal with
         | H : chosen (_ :: _) _ _ _ |- _ => inversion H; clear H; subst
         | H : chosen [] _ _ _ |- _ => inversion H; clear H; subst
         end.
  cbn [within] in *.
  do 8 eexists. split; [reflexivity|]. split; [reflexivity|].
  unfold between.
  repeat match goal with
         | |- _ /\ _ => split
         | |- all_chars _ _ = true => eassumption
         | |- (_ <= _)%nat => eassumption || lia
         | |- (_ <= _ <= _)%nat => lia
         end.
  all: intros w' s' Heq Hlt Hcls;
    match goal with
    | Hmax : forall _ _, _ = _ -> _ |- _ =>
        solve [ intros; eapply (Hmax w' s'); eauto; exact I ]
    end.
Qed.

(** What [parse_input] does with a line that the pattern matches. *)
Lemma entry_matched (line : string) (marks : list nat) :
  re_match entry_pattern line = Some marks ->
  exists e rest,
    well_formed e /\ line = entry_text e +:+ rest /\
    longest_description e rest /\ longest_token e rest /\
    parse_input line =
      Some (entry_date e, entry_description e, entry_amount e, None).
Proof.
  intros Hrun. unfold re_match in Hrun.
  pose proof (entry_chosen_inv line marks (run_sound _ _ _ _ Hrun))
    as (y & m & d & t & i & pt & f & rest & Hline & Hmarks & (Hy & Hy') & (Hm & Hm') &
        (Hd & Hd') & (Ht & Ht') & (Hi & Hi') & (Hpt & Hpt') & Hf &
        Hmaxt & Hmaxi & Hmaxpt & Hmaxf).
  rewrite all_chars_digits in Hy, Hm, Hd, Hi, Hf.
  set (e := Entry y m d t i pt f).
  assert (Hpoint : pt = "" \/ pt = ".").
  { destruct pt as [|c [|? ?]]; [now left| |cbn in Hpt'; lia].
    right. cbn [all_chars] in Hpt. rewrite andb_true_r in Hpt.
    apply Ascii.eqb_eq in Hpt. now subst. }
  assert (Hwf : well_formed e).
  { unfold well_formed, e. cbn [entry_year entry_month entry_day entry_description
                                  entry_whole entry_point entry_fraction].
    repeat match goal with |- _ /\ _ => split end; try assumption.
    - intros ->. cbn in Ht'. lia.
    - intros ->. cbn in Hi'. lia. }
  assert (Htext : line = entry_text e +:+ rest).
  { rewrite Hline. unfold entry_text, entry_date, entry_token, e.
    cbn [entry_year entry_month entry_day entry_description
           entry_whole entry_point entry_fraction].
    now rewrite !string_app_assoc. }
  exists e, rest. split; [exact Hwf|]. split; [exact Htext|]. split; [|split].
  - intros longer after Heq Hlen Hcls.
    destruct (hyphen_digit after) eqn:Hhd; [|reflexivity]. exfalso.
    apply (Hmaxt longer after); [|exact Hlen|exact Hcls|now apply parses_after_description].
    rewrite <- Heq. unfold entry_token, e.
    cbn [entry_description entry_whole entry_point entry_fraction].
    now rewrite !string_app_assoc.
  - unfold longest_token, e. cbn [entry_point entry_fraction].
    destruct rest as [|c rest]; [exact I|]. split.
    + destruct (is_digit c) eqn:Hc; [|reflexivity]. exfalso.
      apply (Hmaxf (f +:+ String c "") rest).
      * now rewrite string_app_assoc.
      * rewrite string_length_app. cbn. lia.
      * rewrite all_chars_app, all_chars_digits, Hf. cbn [all_chars]. now rewrite Hc.
      * repeat constructor.
    + intros ->. assert (Hfe : f = "").
      { destruct f as [|c' f]; [reflexivity|]. exfalso.
        cbn [all_digits] in Hf. apply andb_true_iff in Hf as [Hc' _].
        apply (Hmaxi (i +:+ String c' "") (f +:+ String c rest)).
        - now rewrite string_app_assoc.
        - rewrite string_length_app. cbn. lia.
        - rewrite all_chars_app, all_chars_digits, Hi. cbn [all_chars]. now rewrite Hc'.
        - apply parses_after_whole. }
      split; [exact Hfe|]. subst f.
      destruct (is_point c) eqn:Hc; [|reflexivity]. exfalso.
      apply (Hmaxpt (String c "") rest); [reflexivity|cbn; lia| |cbn; lia|].
      * cbn [all_chars]. now rewrite Hc.
      * apply parses_after_point.
  - unfold parse_input. unfold re_match. rewrite Hrun, Hmarks. cbv beta iota zeta.
    rewrite (slice_spec line (entry_date e +:+ "，" +:+ t +:+ "-") (entry_token e) rest);
      [|rewrite Hline; unfold entry_date, entry_token, e;
        cbn [entry_year entry_month entry_day entry_whole entry_point entry_fraction];
        now rewrite !string_app_assoc
       |unfold entry_date, e; cbn [entry_year entry_month entry_day];
        rewrite !string_length_app; cbn [String.length]; lia
       |unfold entry_date, entry_token, e;
        cbn [entry_year entry_month entry_day entry_whole entry_point entry_fraction];
        rewrite !string_length_app; cbn [String.length]; lia].
    rewrite (py_float_token e Hwf).
    rewrite (slice_spec line "" (entry_date e)
               ("，" +:+ t +:+ "-" +:+ i +:+ pt +:+ f +:+ rest));
      [|rewrite Hline; unfold entry_date, e;
        cbn [entry_year entry_month entry_day]; now rewrite !string_app_assoc
       |reflexivity
       |unfold entry_date, e; cbn [entry_year entry_month entry_day];
        rewrite !string_length_app; cbn [String.length]; lia].
    rewrite (slice_spec line (entry_date e +:+ "，") t
               ("-" +:+ i +:+ pt +:+ f +:+ rest));
      [|rewrite Hline; unfold entry_date, e;
        cbn [entry_year entry_month entry_day]; now rewrite !string_app_assoc
       |unfold entry_date, e; cbn [entry_year entry_month entry_day];
        rewrite !string_length_app; cbn [String.length]; lia
       |unfold entry_date, e; cbn [entry_year entry_month entry_day];
        rewrite !string_length_app; cbn [String.length]; lia].
    reflexivity.
Qed.

(** A line that begins with an entry is matched by the pattern. *)
Lemma entry_parses (line : string) :
  begins_with_entry line -> parses entry_pattern line.
Proof.
  intros (e & rest & Hwf & ->).
  destruct Hwf as (Hy & Hy' & Hm & Hm' & Hd & Hd' & Ht & Ht' & Hi & Hi' & Hpt & Hf).
  unfold between in *. unfold entry_text, entry_date, entry_token.
  rewrite !string_app_assoc. rewrite <- all_chars_digits in Hy, Hm, Hd, Hi, Hf.
  unfold entry_pattern.
  apply parses_mark. apply parses_rep; [exact Hy|lia|cbn; lia|].
  apply (parses_chars "/"). apply parses_rep; [exact Hm|lia|cbn; lia|].
  apply (parses_chars "/"). apply parses_rep; [exact Hd|lia|cbn; lia|].
  apply parses_mark. apply (parses_chars "，"). apply parses_mark.
  apply parses_rep; [exact Ht| |exact I|].
  { destruct (entry_description e); [contradiction|cbn; lia]. }
  apply parses_mark. apply (parses_chars "-"). apply parses_mark.
  apply parses_rep; [exact Hi| |exact I|].
  { destruct (entry_whole e); [contradiction|cbn; lia]. }
  apply parses_rep; [|lia| |].
  { destruct Hpt as [-> | ->]; reflexivity. }
  { destruct Hpt as [-> | ->]; cbn; lia. }
  apply parses_rep; [exact Hf|lia|exact I|].
  apply parses_mark. constructor.
Qed.

Lemma parse_input_matched (line : string)
    (parsed : string * string * float * option string) :
  parse_input line = Some parsed -> parsed_as line parsed.
Proof.
  intros Hparse.
  destruct (re_match entry_pattern line) as [marks|] eqn:Hrun.
  - destruct (entry_matched line marks Hrun) as (e & rest & Hwf & Hline & Hd & Ht & Hp).
    exists e, rest. rewrite Hparse in Hp. injection Hp as ->. done.
  - unfold parse_input in Hparse. now rewrite Hrun in Hparse.
Qed.

Lemma parse_input_entry (line : string) :
  begins_with_entry line -> exists parsed, parse_input line = Some parsed.
Proof.
  intros Hline. apply entry_parses in Hline.
  destruct (run_complete _ _ Hline 0%nat) as [marks Hrun].
  destruct (entry_matched line marks Hrun) as (e & rest & _ & _ & _ & _ & Hp). eauto.
Qed.

End EntryPattern.

(** X10.  On a line of ASCII characters, CJK ideographs and full-width
    commas, [parse_input] accepts the line exactly when it begins with an
    entry: a date of 2 to 4, 1 to 2 and 1 to 2 digits around two slashes,
    a full-width comma, a description that is not empty and has no newline,
    a hyphen, and digits with at most one point after them and digits after
    the point.  What follows the entry on the line is not looked at, and no
    line is refused for its amount. *)
Theorem parse_input_accepts (line : string) :
  plain_text line = true ->
  ((exists parsed, parse_input line = Some parsed) <-> begins_with_entry line).
Proof.
  intros _. split.
  - intros [parsed Hparse].
    destruct (parse_input_matched line parsed Hparse) as (e & rest & Hwf & Hline & _).
    now exists e, rest.
  - apply parse_input_entry.
Qed.

Lemma parse_input_accepts_witness : begins_with_entry "24/2/3，午餐-25.5元".
Proof.
  apply (proj1 (parse_input_accepts "24/2/3，午餐-25.5元" eq_refl)).
  eexists. vm_compute. reflexivity.
Defined.

(** X11.  On a line of ASCII characters, CJK ideographs and full-width
    commas, what [parse_input] returns is read off the entry at the head of
    the line: its date, its description, the amount that [float] reads from
    its token, and no category.  The description is the longest the line
    allows: it runs up to the last hyphen of its line of text that a digit
    follows, so it keeps every hyphen before that one.  The amount takes all
    the digits after that hyphen, the point after them and the digits after
    the point. *)
Theorem parse_input_result (line : string)
    (parsed : string * string * float * option string) :
  plain_text line = true ->
  parse_input line = Some parsed -> parsed_as line parsed.
Proof. intros _. apply parse_input_matched. Qed.

Lemma parse_input_result_witness :
  parsed_as "2024/02/14，a-1-b" ("2024/02/14", "a", 1%float, None).
Proof.
  apply (parse_input_result "2024/02/14，a-1-b"); vm_compute; reflexivity.
Defined.

(** X12.  A line of ASCII characters, CJK ideographs and full-width commas
    typed at choice 1 of the menu changes the tracker only when it begins
    with an entry whose date, after the century is put
    before a year of two digits, is a day of the calendar; then exactly one
    record is added, as [add_expense] adds it, with the description and the
    amount of the entry and under a declared category.  In every other case
    ledger and file stay as they are. *)
Theorem enter_effect (str_lower : string -> string) (st : tracker) (line : string) :
  plain_text line = true -> entered str_lower st line.
Proof.
  intros _. unfold entered, enter.
  destruct (parse_input line) as [parsed|] eqn:Hparse.
  - right.
    destruct (parse_input_matched line parsed Hparse)
      as (e & rest & Hwf & Hline & -> & _).
    exists e, rest. split; [exact Hwf|]. split; [exact Hline|].
    destruct (strptime (normalize_date (entry_date e)))
      as [[[year month] day]|exn] eqn:Hdate.
    + right. exists year, month, day. split; [reflexivity|].
      split; [exact (strptime_calendar_day _ _ _ _ Hdate)|].
      split; [reflexivity|].
      split; [exact (add_expense_success _ _ _ _ _ _ _ _ _ Hdate)|].
      apply categorize_description_declared.
    + left. exists exn. split; [reflexivity|].
      now rewrite (add_expense_failure _ _ _ _ _ _ _ Hdate).
  - left. split; [|reflexivity].
    intros Hline. apply parse_input_entry in Hline as [parsed Hsome]. congruence.
Qed.

Lemma enter_effect_witness :
  entered ascii_lower (start NoFile) "24/02/14，地铁-5".
Proof.
  apply (enter_effect ascii_lower (start NoFile) "24/02/14，地铁-5"). reflexivity.
Defined.

(** ** What the ledger and the file hold *)

(** X13.  [save_data] writes the whole ledger and nothing twice: the
    document has every period once and, within a period, every category
    once, and for every period and category it holds exactly the records of
    the ledger, in entry order. *)
Theorem save_data_writes_once (L : ledger) :
  exists doc, save_data L = Saved doc /\ written L doc.
Proof.
  unfold save_data. eexists. split; [reflexivity|]. split; [|split].
  - rewrite <- list_fmap_compose.
    erewrite list_fmap_ext; [apply (NoDup_fst_map_to_list L)|].
    now intros ? [? ?].
  - intros month cats Hin.
    apply list_elem_of_fmap in Hin as ([m cs] & [= -> ->] & _).
    apply NoDup_fst_map_to_list.
  - apply doc_records_saved.
Qed.

Lemma ledger_extend_no_empty_list (L : ledger) month_key cat (e : expense) :
  no_empty_list L -> no_empty_list (ledger_extend L month_key cat [e]).
Proof.
  intros HL key cats c es. unfold ledger_extend.
  destruct (decide (month_key = key)) as [->|Hkey].
  - rewrite lookup_insert_eq. intros [= <-].
    destruct (decide (cat = c)) as [->|Hcat].
    + rewrite lookup_insert_eq. intros [= <-]. now destruct (records L key c).
    + rewrite lookup_insert_ne by done. unfold month_data.
      destruct (L !! key) as [cats0|] eqn:Hk; cbn.
      * apply (HL key cats0 c es Hk).
      * now rewrite lookup_empty.
  - rewrite lookup_insert_ne by done. apply HL.
Qed.

Section Keeping.

Variable str_lower : string -> string.

Lemma reachable_no_empty_list (st : tracker) :
  reachable str_lower st -> no_empty_list (expenses st).
Proof.
  induction 1 as [|st st' Hst IH Hstep].
  - intros key cats c es H. cbn in H. now rewrite lookup_empty in H.
  - destruct Hstep as [st date_str description amount category|st].
    + unfold add_expense.
      destruct (strptime (normalize_date date_str)) as [[[year month] day]|e];
        [|exact IH].
      cbn [fst expenses]. now apply ledger_extend_no_empty_list.
    + now rewrite (restart_restores_aux str_lower st Hst).
Qed.

(** X14.  The tracker leaves no idle key and no stray record behind: in
    every state it reaches, every period key of the ledger holds a category
    key, every category key holds a record, and every record carries a date
    that is a day of the calendar, lies in the month of its period key, and
    carries the category of its category key. *)
Theorem reachable_well_kept (st : tracker) :
  reachable str_lower st -> well_kept (expenses st).
Proof.
  intros Hst key cats Hkey.
  destruct (reachable_tracker_inv str_lower st Hst) as (Hinv & Hvac & _).
  split; [exact (Hvac key cats Hkey)|].
  intros cat es Hcat. split; [exact (reachable_no_empty_list st Hst key cats cat es Hkey Hcat)|].
  intros e He. destruct (Hinv key cats cat es e Hkey Hcat He) as [Hperiod Hc].
  split; [exact Hc|]. unfold period_of_date in Hperiod.
  destruct (strptime (date e)) as [[[year month] day]|exn] eqn:Hdate; [|discriminate].
  injection Hperiod as <-. exists year, month, day.
  split; [reflexivity|]. split; [|reflexivity].
  exact (strptime_calendar_day _ _ _ _ Hdate).
Qed.

End Keeping.

Lemma reachable_well_kept_witness : well_kept (expenses after_scenario_a).
Proof.
  apply (reachable_well_kept ascii_lower after_scenario_a).
  exact after_scenario_a_reachable.
Defined.

Lemma restart_restores_witness : start (file after_scenario_a) = after_scenario_a.
Proof.
  apply (restart_restores ascii_lower after_scenario_a).
  exact after_scenario_a_reachable.
Defined.

Lemma ledger_only_grows_witness :
  records (expenses after_scenario_a) "2024-02" "交通" `prefix_of`
  records (expenses (fst (add_expense ascii_lower after_scenario_a
                            "24/02/14" "地铁" 5 None))) "2024-02" "交通".
Proof.
  apply (ledger_only_grows ascii_lower after_scenario_a).
  - exact after_scenario_a_reachable.
  - apply step_add.
Defined.
